(** * audit-application: a shallow embedding of the four command-line tools

    - [audit-lighthouse/crawl-urls.mjs]: the same-domain link crawler;
    - [audit-lighthouse/convert-pathnames-to-json.mjs]: the text-to-JSON
      converter;
    - [audit-redirect-file/audit-redirect.js]: the redirect auditor;
    - the sitemap harvester (interactive URL pathname extractor).

    JavaScript strings are sequences of UTF-16 code units, JavaScript [Set]s
    are insertion-ordered lists without duplicates, the network and the URL
    parser of the platform are interfaces (type classes), and the promises of
    one crawl batch are resolved in an order chosen by a scheduler. *)

From Stdlib Require Import String Ascii ZArith Lia.
From Stdlib Require Import Sorting.Sorted.
From stdpp Require Import base tactics option numbers list sorting.

Set Default Proof Using "Type".
Local Open Scope Z_scope.

(** ** JavaScript strings *)

Module JS.

(** A string is the list of its UTF-16 code units. *)
Abbreviation jsstring := (list N) (only parsing).

(** UTF-16 code units of a code point. *)
Definition utf16 (cp : N) : jsstring :=
  (if cp <? 0x10000 then [cp]
   else [0xD800 + (cp - 0x10000) / 1024; 0xDC00 + (cp - 0x10000) mod 1024])%N.

(** The payload of a UTF-8 continuation byte. *)
Definition continuation (b : N) : option N :=
  (if (0x80 <=? b) && (b <=? 0xBF) then Some (b - 0x80) else None)%N.

(** A code point that [n] bytes may encode: not overlong, no surrogate. *)
Definition scalar (lo cp : N) : option jsstring :=
  (if (lo <=? cp) && (cp <=? 0x10FFFF)
      && negb ((0xD800 <=? cp) && (cp <=? 0xDFFF))
   then Some (utf16 cp) else None)%N.

(** The code point of one well-formed UTF-8 sequence, as code units. *)
Definition utf8_2 (b b1 : N) : option jsstring :=
  c1 ← continuation b1; scalar 0x80 ((b - 0xC0) * 64 + c1)%N.
Definition utf8_3 (b b1 b2 : N) : option jsstring :=
  c1 ← continuation b1; c2 ← continuation b2;
  scalar 0x800 (((b - 0xE0) * 64 + c1) * 64 + c2)%N.
Definition utf8_4 (b b1 b2 b3 : N) : option jsstring :=
  c1 ← continuation b1; c2 ← continuation b2; c3 ← continuation b3;
  scalar 0x10000 ((((b - 0xF0) * 64 + c1) * 64 + c2) * 64 + c3)%N.

(** The text of a UTF-8 byte sequence (an ill-formed byte gives U+FFFD). *)
Fixpoint ofUtf8 (bs : list N) : jsstring :=
  match bs with
  | [] => []
  | b :: bs1 =>
      if (b <? 0x80)%N then b :: ofUtf8 bs1
      else
        match (if b <? 0xE0 then 1 else if b <? 0xF0 then 2 else 3)%N, bs1 with
        | 1%N, b1 :: bs2 =>
            match utf8_2 b b1 with
            | Some w => w ++ ofUtf8 bs2
            | None => 0xFFFD%N :: ofUtf8 bs1
            end
        | 2%N, b1 :: b2 :: bs3 =>
            match utf8_3 b b1 b2 with
            | Some w => w ++ ofUtf8 bs3
            | None => 0xFFFD%N :: ofUtf8 bs1
            end
        | 3%N, b1 :: b2 :: b3 :: bs4 =>
            match utf8_4 b b1 b2 b3 with
            | Some w => w ++ ofUtf8 bs4
            | None => 0xFFFD%N :: ofUtf8 bs1
            end
        | _, _ => 0xFFFD%N :: ofUtf8 bs1
        end
  end.

(** A string literal of the source (the sources are UTF-8 files). *)
Definition lit (s : string) : jsstring :=
  ofUtf8 (List.map N_of_ascii (list_ascii_of_string s)).
Arguments lit s%_string : simpl never.

(** [s.startsWith(p)] *)
Fixpoint startsWith (p s : jsstring) : bool :=
  match p, s with
  | [], _ => true
  | a :: p', b :: s' => N.eqb a b && startsWith p' s'
  | _ :: _, [] => false
  end.

(** [s.includes(p)] *)
Fixpoint includes (p s : jsstring) : bool :=
  startsWith p s || match s with [] => false | _ :: s' => includes p s' end.

(** [s.endsWith(p)] *)
Definition endsWith (p s : jsstring) : bool := startsWith (rev p) (rev s).

(** [s.split(c)] for a separator of one code unit: never the empty array. *)
Fixpoint split (c : N) (s : jsstring) : list jsstring :=
  match s with
  | [] => [[]]
  | a :: s' =>
      if N.eqb a c then [] :: split c s'
      else match split c s' with
           | [] => [[a]]
           | w :: ws => (a :: w) :: ws
           end
  end.

(** [a[0]] of an array of strings ([undefined] does not arise after [split]). *)
Definition first (l : list jsstring) : jsstring := hd [] l.

(** [a.join(sep)] *)
Fixpoint join (sep : jsstring) (l : list jsstring) : jsstring :=
  match l with
  | [] => []
  | [w] => w
  | w :: ws => w ++ sep ++ join sep ws
  end.

(** ECMAScript LineTerminator code units. *)
Definition isLineTerminator (c : N) : bool :=
  (N.eqb c 10 || N.eqb c 13 || N.eqb c 0x2028 || N.eqb c 0x2029)%N.

(** ECMAScript WhiteSpace and LineTerminator: what [trim] strips and what the
    regular expression class [\s] matches. *)
Definition isSpace (c : N) : bool :=
  ((9 <=? c) && (c <=? 13) || N.eqb c 32 || N.eqb c 0xA0 || N.eqb c 0x1680
   || (0x2000 <=? c) && (c <=? 0x200A)
   || N.eqb c 0x2028 || N.eqb c 0x2029 || N.eqb c 0x202F || N.eqb c 0x205F
   || N.eqb c 0x3000 || N.eqb c 0xFEFF)%N.

Fixpoint trimStart (s : jsstring) : jsstring :=
  match s with
  | c :: s' => if isSpace c then trimStart s' else s
  | [] => []
  end.

Definition trimEnd (s : jsstring) : jsstring := rev (trimStart (rev s)).

(** [s.trim()] *)
Definition trim (s : jsstring) : jsstring := trimEnd (trimStart s).

(** Ordinal comparison of strings, code unit by code unit: the order of the
    relational operators and of [Array.prototype.sort] without comparator. *)
Fixpoint ltb (s t : jsstring) : bool :=
  match s, t with
  | _, [] => false
  | [], _ :: _ => true
  | a :: s', b :: t' => (a <? b)%N || N.eqb a b && ltb s' t'
  end.

Definition leb (s t : jsstring) : bool := negb (ltb t s).

Definition le (x y : jsstring) : Prop := leb x y = true.
Definition lt (x y : jsstring) : Prop := ltb x y = true.

(** An insertion-ordered [Set] of strings: [add], [has], [delete]. *)
Definition has (x : jsstring) (s : list jsstring) : bool := bool_decide (x ∈ s).

Definition add (x : jsstring) (s : list jsstring) : list jsstring :=
  if has x s then s else s ++ [x].

Definition delete (x : jsstring) (s : list jsstring) : list jsstring :=
  List.filter (fun y => negb (bool_decide (y = x))) s.

(** [new Set(array)] and [[...set]]: first occurrences, in order. *)
Definition setOf (l : list jsstring) : list jsstring :=
  fold_left (fun s x => add x s) l [].

(** [array.sort()] on strings.  The order is total, so the sorted array does
    not depend on the algorithm of the engine; insertion sort is used. *)
Fixpoint insert (x : jsstring) (l : list jsstring) : list jsstring :=
  match l with
  | [] => [x]
  | y :: l' => if leb x y then x :: l else y :: insert x l'
  end.

Definition sort (l : list jsstring) : list jsstring :=
  fold_right insert [] l.

(** Decimal digits of a number, as in a template literal. *)
Fixpoint digits (fuel : nat) (n : N) (acc : jsstring) : jsstring :=
  match fuel with
  | O => acc
  | S f =>
      let acc' := (48 + n mod 10)%N :: acc in
      if (n <? 10)%N then acc' else digits f (n / 10)%N acc'
  end.

Definition ofN (n : N) : jsstring := digits (S (N.to_nat (N.log2 n))) n [].
Definition ofNat (n : nat) : jsstring := ofN (N.of_nat n).
Definition ofZ (z : Z) : jsstring :=
  if (z <? 0)%Z then 45%N :: ofN (Z.abs_N z) else ofN (Z.abs_N z).

End JS.

Import JS.

(** ** Regular expressions: the backtracking matcher of ECMAScript

    Only the constructs the four tools use. The flag [i] is part of the atoms
    (a letter of a pattern matches both its cases: without the [u] flag no
    code unit outside ASCII is canonicalised to an ASCII letter); the flag
    [m] is an argument of the matcher; [g] is the difference between
    [matchAll] and [test]. *)

Module Regex.

Inductive regex : Type :=
| Eps
| Chr (p : N -> bool)
| Seq (r1 r2 : regex)
| Alt (r1 r2 : regex)
| Star (r : regex)
| Group (i : nat) (r : regex)
| Bol
| Eol
| WordB.

Definition Plus (r : regex) : regex := Seq r (Star r).

(** The position of the matcher: the code unit before it, the rest of the
    input and the captures so far. *)
Record mstate := MState {
  ms_prev : option N;
  ms_rest : jsstring;
  ms_caps : list (nat * jsstring)
}.

Definition isWordChar (c : N) : bool :=
  ((48 <=? c) && (c <=? 57) || (65 <=? c) && (c <=? 90)
   || (97 <=? c) && (c <=? 122) || N.eqb c 95)%N.

Definition wordBefore (x : mstate) : bool :=
  match ms_prev x with Some c => isWordChar c | None => false end.
Definition wordAfter (x : mstate) : bool :=
  match ms_rest x with c :: _ => isWordChar c | [] => false end.

Definition atBol (multiline : bool) (x : mstate) : bool :=
  match ms_prev x with
  | None => true
  | Some c => multiline && isLineTerminator c
  end.
Definition atEol (multiline : bool) (x : mstate) : bool :=
  match ms_rest x with
  | [] => true
  | c :: _ => multiline && isLineTerminator c
  end.

(** The matcher, in continuation-passing style as in the language
    definition: [k] is the rest of the pattern. A greedy [Star] first tries
    one more iteration, which has to consume input, then the continuation. *)
Fixpoint mtch (ml : bool) (r : regex) (x : mstate)
    (k : mstate -> option mstate) {struct r} : option mstate :=
  match r with
  | Eps => k x
  | Chr p =>
      match ms_rest x with
      | c :: tl => if p c then k (MState (Some c) tl (ms_caps x)) else None
      | [] => None
      end
  | Seq r1 r2 => mtch ml r1 x (fun y => mtch ml r2 y k)
  | Alt r1 r2 =>
      match mtch ml r1 x k with
      | Some z => Some z
      | None => mtch ml r2 x k
      end
  | Star r1 =>
      (fix loop (n : nat) (x : mstate) {struct n} : option mstate :=
         match n with
         | O => k x
         | S n' =>
             match mtch ml r1 x (fun y =>
                     if (length (ms_rest y) <? length (ms_rest x))%nat
                     then loop n' y else None) with
             | Some z => Some z
             | None => k x
             end
         end) (S (length (ms_rest x))) x
  | Group i r1 =>
      mtch ml r1 x (fun y =>
        k (MState (ms_prev y) (ms_rest y)
             ((i, take (length (ms_rest x) - length (ms_rest y)) (ms_rest x))
                :: ms_caps y)))
  | Bol => if atBol ml x then k x else None
  | Eol => if atEol ml x then k x else None
  | WordB => if xorb (wordBefore x) (wordAfter x) then k x else None
  end.

(** The leftmost match at or after the position: the length of the input left
    at the start of the match, and the state at its end. *)
Fixpoint search (ml : bool) (r : regex) (prev : option N) (s : jsstring)
    {struct s} : option (nat * mstate) :=
  match mtch ml r (MState prev s []) Some with
  | Some y => Some (length s, y)
  | None =>
      match s with
      | [] => None
      | c :: tl => search ml r (Some c) tl
      end
  end.

(** [re.test(s)], and the truth value of [s.match(re)] without [g]. *)
Definition test (ml : bool) (r : regex) (s : jsstring) : bool :=
  bool_decide (is_Some (search ml r None s)).

(** Capture [i] of a match ([undefined] is not told from the empty string). *)
Fixpoint capture (i : nat) (caps : list (nat * jsstring)) : jsstring :=
  match caps with
  | [] => []
  | (j, w) :: caps' => if Nat.eqb i j then w else capture i caps'
  end.

(** [[...s.matchAll(re)]] for a global [re]: the captures of the successive
    matches. After an empty match the search resumes one code unit later. *)
Fixpoint matchAllFrom (fuel : nat) (ml : bool) (r : regex)
    (prev : option N) (s : jsstring) : list (list (nat * jsstring)) :=
  match fuel with
  | O => []
  | S fuel' =>
      match search ml r prev s with
      | None => []
      | Some (start, y) =>
          ms_caps y ::
            (if (length (ms_rest y) <? start)%nat
             then matchAllFrom fuel' ml r (ms_prev y) (ms_rest y)
             else match ms_rest y with
                  | [] => []
                  | c :: tl => matchAllFrom fuel' ml r (Some c) tl
                  end)
      end
  end.

Definition matchAll (ml : bool) (r : regex) (s : jsstring)
    : list (list (nat * jsstring)) :=
  matchAllFrom (S (length s)) ml r None s.

(** [s.replace(re, repl)] for a [re] without [g] and a replacement without
    [$]: the leftmost match is replaced. *)
Definition replaceFirst (ml : bool) (r : regex) (repl s : jsstring)
    : jsstring :=
  match search ml r None s with
  | None => s
  | Some (start, y) => take (length s - start) s ++ repl ++ ms_rest y
  end.

(** Atoms. *)
Definition chr (c : N) : regex := Chr (N.eqb c).
Definition notChr (c : N) : regex := Chr (fun d => negb (N.eqb c d)).
Definition oneOf (cs : jsstring) : regex :=
  Chr (fun d => existsb (N.eqb d) cs).
Definition noneOf (cs : jsstring) : regex :=
  Chr (fun d => negb (existsb (N.eqb d) cs)).
Definition space : regex := Chr isSpace.
Definition dot : regex := Chr (fun d => negb (isLineTerminator d)).

(** A letter under the flag [i]. *)
Definition chrI (c : N) : regex :=
  Chr (fun d => N.eqb d c
                || (65 <=? c)%N && (c <=? 90)%N && N.eqb d (c + 32)%N
                || (97 <=? c)%N && (c <=? 122)%N && N.eqb d (c - 32)%N).

Fixpoint seqOf (f : N -> regex) (s : jsstring) : regex :=
  match s with
  | [] => Eps
  | [c] => f c
  | c :: s' => Seq (f c) (seqOf f s')
  end.

(** A literal run of a pattern, without and with the flag [i]. *)
Definition word (s : string) : regex := seqOf chr (lit s).
Definition wordI (s : string) : regex := seqOf chrI (lit s).
Arguments word s%_string.
Arguments wordI s%_string.

Fixpoint seqs (rs : list regex) : regex :=
  match rs with
  | [] => Eps
  | [r] => r
  | r :: rs' => Seq r (seqs rs')
  end.

Fixpoint alts (rs : list regex) : regex :=
  match rs with
  | [] => Chr (fun _ => false)
  | [r] => r
  | r :: rs' => Alt r (alts rs')
  end.

End Regex.

Import Regex.

(** ** The platform *)

(** [decodeURIComponent]: every [%XX] is a byte, the bytes above 0x7F have to
    form well-formed UTF-8 sequences, each of them written [%XX]; anything
    else raises [URIError] ([None]). *)
Module URI.

Inductive token : Type :=
| TLit (c : N)
| TByte (b : N)
| TBad.

Definition hexval (c : N) : option N :=
  (if (48 <=? c) && (c <=? 57) then Some (c - 48)
   else if (65 <=? c) && (c <=? 70) then Some (c - 55)
   else if (97 <=? c) && (c <=? 102) then Some (c - 87)
   else None)%N.

Fixpoint tokens (s : jsstring) : list token :=
  match s with
  | [] => []
  | c :: tl =>
      if N.eqb c 37 then
        match tl with
        | h1 :: h2 :: rest =>
            match hexval h1, hexval h2 with
            | Some a, Some b => TByte (16 * a + b)%N :: tokens rest
            | _, _ => [TBad]
            end
        | _ => [TBad]
        end
      else TLit c :: tokens tl
  end.

Fixpoint decodeTokens (ts : list token) : option jsstring :=
  match ts with
  | [] => Some []
  | TLit c :: ts1 => cons c <$> decodeTokens ts1
  | TBad :: _ => None
  | TByte b :: ts1 =>
      if (b <? 0x80)%N then cons b <$> decodeTokens ts1
      else if (b <? 0xE0)%N then
        match ts1 with
        | TByte b1 :: ts2 =>
            w ← utf8_2 b b1; app w <$> decodeTokens ts2
        | _ => None
        end
      else if (b <? 0xF0)%N then
        match ts1 with
        | TByte b1 :: TByte b2 :: ts3 =>
            w ← utf8_3 b b1 b2; app w <$> decodeTokens ts3
        | _ => None
        end
      else
        match ts1 with
        | TByte b1 :: TByte b2 :: TByte b3 :: ts4 =>
            w ← utf8_4 b b1 b2 b3; app w <$> decodeTokens ts4
        | _ => None
        end
  end.

Definition decodeURIComponent (s : jsstring) : option jsstring :=
  decodeTokens (tokens s).

End URI.

(** The [URL] class: the properties the tools read. [parseURL s] is
    [new URL(s)] and [parseURLWithBase s base] is [new URL(s, base)]; [None]
    when the constructor throws. *)
Record URL := MkURL {
  href : jsstring;
  protocol : jsstring;
  host : jsstring;
  hostname : jsstring;
  origin : jsstring;
  pathname : jsstring
}.

Class URLParser := {
  parseURL : jsstring -> option URL;
  parseURLWithBase : jsstring -> jsstring -> option URL
}.

(** What [fetch] gives: a network error ([inl], with its message) or a
    response. [fetch n url] is the [n]-th request of the run, so that two
    requests of one URL need not be answered alike. *)
Record Response := MkResponse {
  ok : bool;
  status : N;
  contentType : option jsstring;   (* headers.get('content-type') *)
  location : option jsstring;      (* headers.get('location') *)
  url : jsstring;                  (* the URL after redirections *)
  text : jsstring + jsstring;      (* text(): an error or the body *)
  arrayBuffer : jsstring + list N  (* arrayBuffer(): an error or the bytes *)
}.

(** The option [redirect] of a request ([follow] when it is not given). *)
Inductive redirect : Type := Follow | Manual.

Class Network := {
  fetch : nat -> redirect -> jsstring -> jsstring + Response
}.

(** The order in which the pending fetches of a batch are answered: the
    index, modulo their number, of the next one among those in flight. *)
Class Scheduler := {
  pick : list (nat * jsstring) -> nat
}.

(** The outcome of running a function of the source. *)
Inductive outcome (A : Type) : Type :=
| Returns (a : A)
| Throws
| OutOfFuel.
Arguments Returns {A} a.
Arguments Throws {A}.
Arguments OutOfFuel {A}.

(** What [main] does to the outside: [console.log], [console.error],
    [fs.writeFile] and [rl.close]. *)
Inductive effect : Type :=
| Log (line : jsstring)
| Error (line : jsstring)
| WriteFile (path data : jsstring)
| Close.

(** ** crawl-urls.mjs *)

Module CrawlUrls.
Section WithPlatform.
Context `{URLParser} `{Network} `{Scheduler}.

(** [normalizeUrl(url, baseUrl)]; [None] is [null]. *)
Definition normalizeUrl (url : jsstring) (baseUrl : URL) : option jsstring :=
  if bool_decide (url = []) then None
  else if startsWith (lit "http://") url || startsWith (lit "https://") url
  then href <$> parseURL url
  else if startsWith (lit "//") url
  then href <$> parseURL (protocol baseUrl ++ url)
  else if startsWith (lit "/") url
  then href <$> parseURLWithBase url (origin baseUrl)
  else href <$> parseURLWithBase url (href baseUrl).

Definition isSameDomain (url : jsstring) (baseUrl : URL) : bool :=
  match parseURL url with
  | Some urlObj => bool_decide (hostname urlObj = hostname baseUrl)
  | None => false
  end.

(** The checks on the path that [isValidUrl] and [isValidPathname] share. *)
Definition re_htmlContent : regex :=
  seqs [Bol; chr 47; Star (notChr 47); oneOf (lit "<>")].
Definition re_percents : regex :=
  seqs [chr 37; chr 37; Star (chr 37)].
Definition re_attribute : regex :=
  seqs [Bol; chr 47; Star (notChr 47); chr 61].
Definition re_blank : regex :=
  seqs [Bol; chr 47; Star (notChr 47); space].

Definition isValidUrl (url : jsstring) : bool :=
  match parseURL url with
  | Some urlObj =>
      let pathname := pathname urlObj in
      if includes (lit "%3E") pathname || includes (lit "%3C") pathname
         || includes (lit "%20") pathname then false
      else if includes (lit "<") pathname || includes (lit ">") pathname
      then false
      else if test false re_htmlContent pathname then false
      else if includes (lit "class=") pathname || includes (lit "id=") pathname
              || includes (lit "style=") pathname then false
      else if (200 <? length pathname)%nat then false
      else if test false re_percents pathname then false
      else true
  | None => false
  end.

(** The five patterns of [extractUrls] (flags [gi]); capture 1 is the URL. *)
Definition quote : regex := oneOf (lit "'" ++ [34%N]).
Definition notQuote : regex := noneOf (lit "'" ++ [34%N]).

Definition attributePattern (tag attr : string) : regex :=
  seqs [wordI tag; Plus (notChr 62); wordI attr; Star space; chr 61;
        Star space; quote; Group 1 (Plus notQuote); quote;
        Star (notChr 62); chr 62].

Definition re_href : regex := attributePattern "<a" "href".
Definition re_src : regex := attributePattern "<img" "src".
Definition re_action : regex := attributePattern "<form" "action".
Definition re_js : regex :=
  seqs [quote;
        Group 1 (seqs [Star notQuote; chr 47; Star notQuote; chr 46;
                       Group 2 (alts [wordI "html"; wordI "php"; wordI "asp";
                                      wordI "jsp"; wordI "htm";
                                      wordI "aspx"])]);
        quote].
Definition re_data : regex :=
  seqs [wordI "data-"; Star (notChr 61); Star space; chr 61; Star space;
        quote; Group 1 (seqs [Star notQuote; chr 47; Star notQuote]); quote].

(** One [matches.forEach] of [extractUrls]: the matches of a pattern are
    normalised and added to the set [urls] when they pass the filters. *)
Definition addMatches (r : regex) (html : jsstring) (baseUrl : URL)
    (urls : list jsstring) : list jsstring :=
  fold_left
    (fun urls m =>
       match normalizeUrl (capture 1 m) baseUrl with
       | Some url =>
           if negb (bool_decide (url = [])) && isSameDomain url baseUrl
              && isValidUrl url
           then add url urls else urls
       | None => urls
       end)
    (matchAll false r html) urls.

Definition extractUrls (html : jsstring) (baseUrl : URL) : list jsstring :=
  let urls := [] in
  let urls := addMatches re_href html baseUrl urls in
  let urls := addMatches re_src html baseUrl urls in
  let urls := addMatches re_action html baseUrl urls in
  let urls := addMatches re_js html baseUrl urls in
  let urls := addMatches re_data html baseUrl urls in
  urls.

(** [fetchPage(url)], for the [n]-th request: the error message or the HTML. *)
Definition fetchPage (n : nat) (url : jsstring) : jsstring + jsstring :=
  let failed msg := inl (lit "Failed to fetch " ++ url ++ lit ": " ++ msg) in
  match fetch n Follow url with
  | inl msg => failed msg
  | inr response =>
      if negb (ok response) then failed (lit "HTTP " ++ ofN (status response))
      else
        let contentType := default [] (contentType response) in
        if negb (includes (lit "text/html") contentType)
        then failed (lit "Not HTML content: " ++ contentType)
        else match text response with
             | inl msg => failed msg
             | inr html => inr html
             end
  end.

(** The variables of [crawlWebsite]; [requests] lists the calls of
    [fetchPage], in order (it is not a variable of the source). *)
Record crawl := MkCrawl {
  toVisit : list jsstring;
  visited : list jsstring;
  discoveredUrls : list jsstring;
  errors : list (jsstring * jsstring);
  pagesProcessed : Z;
  requests : list jsstring
}.

(** Where the control is: at the test of the [while]; inside
    [currentBatch.map], before the callback of the first URL of [batch];
    waiting for the promises [inflight] (request number and URL); after the
    loop. *)
Inductive phase : Type :=
| LoopHead
| Starting (batch : list jsstring) (inflight : list (nat * jsstring))
| Awaiting (inflight : list (nat * jsstring))
| Returned.

(** [(url.match(/\//g) || []).length - 2] *)
Definition urlDepth (url : jsstring) : Z :=
  Z.of_nat (length (matchAll false (chr 47) url)) - 2.

(** [currentBatch.forEach(url => toVisit.delete(url))] *)
Definition deleteAll (batch : list jsstring) (s : list jsstring)
    : list jsstring :=
  fold_left (fun s url => delete url s) batch s.

(** The callback up to its [await]: nothing for a visited URL; otherwise the
    URL is marked, counted and requested. *)
Definition start (url : jsstring) (inflight : list (nat * jsstring))
    (st : crawl) : list (nat * jsstring) * crawl :=
  if has url (visited st) then (inflight, st)
  else
    (inflight ++ [(length (requests st), url)],
     MkCrawl (toVisit st) (add url (visited st)) (discoveredUrls st)
       (errors st) (pagesProcessed st + 1) (requests st ++ [url])).

(** [foundUrls.forEach(...)] for one found URL. *)
Definition found (maxDepth : Z) (url : jsstring) (st : crawl)
    (foundUrl : jsstring) : crawl :=
  let discoveredUrls := add foundUrl (discoveredUrls st) in
  let toVisit :=
    if (urlDepth url <? maxDepth) && negb (has foundUrl (visited st))
    then add foundUrl (toVisit st) else toVisit st in
  MkCrawl toVisit (visited st) discoveredUrls (errors st)
    (pagesProcessed st) (requests st).

(** The callback after its [await]: the page of request [n] has arrived, or
    the request has failed. *)
Definition resume (baseUrl : URL) (maxDepth : Z) (n : nat) (url : jsstring)
    (st : crawl) : crawl :=
  match fetchPage n url with
  | inr html => fold_left (found maxDepth url) (extractUrls html baseUrl) st
  | inl message =>
      MkCrawl (toVisit st) (visited st) (discoveredUrls st)
        (errors st ++ [(url, message)]) (pagesProcessed st) (requests st)
  end.

(** One step of the loop of [crawlWebsite]. *)
Definition step (baseUrl : URL) (maxPages maxDepth : Z)
    (c : phase * crawl) : phase * crawl :=
  let (ph, st) := c in
  match ph with
  | LoopHead =>
      if (0 <? length (toVisit st))%nat && (pagesProcessed st <? maxPages)
      then
        let currentBatch := take 10 (toVisit st) in
        (Starting currentBatch [],
         MkCrawl (deleteAll currentBatch (toVisit st)) (visited st)
           (discoveredUrls st) (errors st) (pagesProcessed st) (requests st))
      else (Returned, st)
  | Starting [] inflight => (Awaiting inflight, st)
  | Starting (url :: batch) inflight =>
      let (inflight', st') := start url inflight st in
      (Starting batch inflight', st')
  | Awaiting [] => (LoopHead, st)
  | Awaiting ((n0, url0) :: rest) =>
      let inflight := (n0, url0) :: rest in
      let i := (pick inflight mod length inflight)%nat in
      let (n, url) := nth i inflight (n0, url0) in
      (Awaiting (take i inflight ++ drop (S i) inflight),
       resume baseUrl maxDepth n url st)
  | Returned => (Returned, st)
  end.

Fixpoint steps (k : nat) (baseUrl : URL) (maxPages maxDepth : Z)
    (c : phase * crawl) : phase * crawl :=
  match k with
  | O => c
  | S k' => steps k' baseUrl maxPages maxDepth (step baseUrl maxPages maxDepth c)
  end.

Definition initial (startUrl : jsstring) : phase * crawl :=
  (LoopHead, MkCrawl [startUrl] [] [] [] 0 []).

(** The object [crawlWebsite] returns. *)
Record CrawlResult := MkResult {
  urls : list jsstring;
  resultErrors : list (jsstring * jsstring);
  resultPagesProcessed : Z;
  totalDiscovered : nat
}.

Definition resultOf (st : crawl) : CrawlResult :=
  MkResult (sort (discoveredUrls st)) (errors st) (pagesProcessed st)
    (length (discoveredUrls st)).

(** [crawlWebsite(startUrl, maxPages, maxDepth)], run for [fuel] steps. *)
Definition crawlWebsite (fuel : nat) (startUrl : jsstring)
    (maxPages maxDepth : Z) : outcome CrawlResult :=
  match parseURL startUrl with
  | None => Throws
  | Some baseUrl =>
      match steps fuel baseUrl maxPages maxDepth (initial startUrl) with
      | (Returned, st) => Returns (resultOf st)
      | _ => OutOfFuel
      end
  end.

(** [cleanPathname(pathname)] *)
Definition cleanPathname (pathname : jsstring) : jsstring :=
  let pathname := default pathname (URI.decodeURIComponent pathname) in
  let pathname := first (split 35 (first (split 63 pathname))) in
  if negb (startsWith (lit "/") pathname) then lit "/" ++ pathname
  else pathname.

(** [isValidPathname(pathname)] *)
Definition isValidPathname (pathname : jsstring) : bool :=
  if bool_decide (pathname = []) || bool_decide (pathname = lit "/") then true
  else if includes (lit "%3E") pathname || includes (lit "%3C") pathname
          || includes (lit "%20") pathname then false
  else if includes (lit "<") pathname || includes (lit ">") pathname then false
  else if test false re_htmlContent pathname then false
  else if includes (lit "class=") pathname || includes (lit "id=") pathname
          || includes (lit "style=") pathname then false
  else if (200 <? length pathname)%nat then false
  else if test false re_percents pathname then false
  else if test false re_attribute pathname || test false re_blank pathname
  then false
  else true.

(** [x || "/"] on strings. *)
Definition orRoot (pathname : jsstring) : jsstring :=
  if bool_decide (pathname = []) then lit "/" else pathname.

(** [extractPathnames(urls, baseUrl)] *)
Definition extractPathnames (urls : list jsstring) (baseUrl : URL)
    : list jsstring :=
  let host := hostname baseUrl in
  sort (setOf
    (List.filter isValidPathname
       (List.map
          (fun url =>
             match parseURL url with
             | Some u => cleanPathname (orRoot (pathname u))
             | None => lit "/"
             end)
          (List.filter
             (fun url =>
                match parseURL url with
                | Some u => bool_decide (hostname u = host)
                | None => false
                end)
             urls)))).

(** The first question of [main]: the answers are read until one of them,
    trimmed and given a scheme, is a URL. [None]: no answer was one. *)
Definition re_scheme : regex :=
  seqs [Bol; wordI "http"; Alt (chrI 115) Eps; word "://"].

Definition websiteUrlOf (input : jsstring) : option jsstring :=
  let websiteUrl := trim input in
  if bool_decide (websiteUrl = []) then None
  else
    let websiteUrl :=
      if negb (test false re_scheme websiteUrl)
      then lit "https://" ++ websiteUrl else websiteUrl in
    match parseURL websiteUrl with
    | Some _ => Some websiteUrl
    | None => None
    end.

Fixpoint askWebsiteUrl (answers : list jsstring) : option jsstring :=
  match answers with
  | [] => None
  | input :: answers' =>
      match websiteUrlOf input with
      | Some websiteUrl => Some websiteUrl
      | None => askWebsiteUrl answers'
      end
  end.

(** [pathnames.slice(0, 10).forEach((path, index) => ...)] *)
Fixpoint preview (index : nat) (pathnames : list jsstring) : list effect :=
  match pathnames with
  | [] => []
  | path :: rest =>
      Log (lit "  " ++ ofNat (index + 1) ++ lit ". " ++ path)
        :: preview (S index) rest
  end.

Definition noUrlsMessage : jsstring :=
  lit "❌ No URLs discovered. The website might be inaccessible or have no crawlable content.".

Definition errorLine (e : jsstring * jsstring) : effect :=
  let (url, error) := e in Log (lit "  - " ++ url ++ lit ": " ++ error).

(** [main], from the return of [crawlWebsite] on. *)
Definition report (websiteUrl : jsstring) (result : CrawlResult)
    : list effect :=
  if bool_decide (length (urls result) = 0%nat) then
    [Log noUrlsMessage]
    ++ (if (0 <? length (resultErrors result))%nat
        then Log (lit "
Errors encountered:")
               :: List.map errorLine (resultErrors result)
        else [])
    ++ [Close; Close]
  else
    match parseURL websiteUrl with
    | None => [Error (lit "❌ Error: Invalid URL"); Close]
    | Some baseUrl =>
        let pathnames := extractPathnames (urls result) baseUrl in
        [WriteFile (lit "url.txt") (join (lit "
") pathnames);
         Log (lit "
✅ Crawl Complete!");
         Log (lit "📊 Pages processed: " ++ ofZ (resultPagesProcessed result));
         Log (lit "🔗 URLs discovered: " ++ ofNat (totalDiscovered result));
         Log (lit "🛤️  Unique pathnames: " ++ ofNat (length pathnames));
         Log (lit "💾 Saved pathnames to url.txt")]
        ++ (if (0 <? length (resultErrors result))%nat
            then [Log (lit "⚠️  Errors encountered: "
                         ++ ofNat (length (resultErrors result)))]
            else [])
        ++ (if (0 <? length pathnames)%nat
            then Log (lit "
📋 Preview of first 10 pathnames:")
                   :: preview 0 (take 10 pathnames)
                   ++ (if (10 <? length pathnames)%nat
                       then [Log (lit "  ... and "
                                    ++ ofNat (length pathnames - 10)
                                    ++ lit " more")]
                       else [])
            else [])
        ++ [Close]
    end.

(** [main()]: [answers] are the lines typed at the first question and
    [maxPages], [maxDepth] the integers read at the two others (an answer
    that [parseInt] turns into [NaN] is not covered). The lines printed
    before the crawl returns are left out. *)
Definition main (fuel : nat) (answers : list jsstring)
    (maxPages maxDepth : Z) : outcome (list effect) :=
  match askWebsiteUrl answers with
  | None => OutOfFuel
  | Some websiteUrl =>
      match crawlWebsite fuel websiteUrl maxPages maxDepth with
      | Returns result => Returns (report websiteUrl result)
      | Throws => Returns [Error (lit "❌ Error: Invalid URL"); Close]
      | OutOfFuel => OutOfFuel
      end
  end.

End WithPlatform.
End CrawlUrls.

(** ** The sitemap harvester *)

Module ExtractUrls.

(** [zlib.gunzip] and [buf.toString("utf8")]. *)
Class Codec := {
  gunzip : list N -> jsstring + list N;
  toStringUtf8 : list N -> jsstring
}.

(** [fs.writeFile(path, data, "utf8")]: [None] when the file is written,
    the message of the error when the promise is rejected. *)
Class FileSystem := {
  writeFile : jsstring -> jsstring -> option jsstring
}.

Section WithPlatform.
Context `{Network} `{Codec}.

Definition fetchBuf (n : nat) (url : jsstring) : jsstring + list N :=
  let failed msg := inl (lit "Failed to fetch " ++ url ++ lit ": " ++ msg) in
  match fetch n Follow url with
  | inl msg => failed msg
  | inr res =>
      if negb (ok res)
      then failed (lit "HTTP " ++ ofN (status res) ++ lit " for " ++ url)
      else match arrayBuffer res with
           | inl msg => failed msg
           | inr buf => inr buf
           end
  end.

Definition fetchText (n : nat) (url : jsstring) : jsstring + jsstring :=
  match fetchBuf n url with
  | inl msg => inl msg
  | inr buf =>
      if endsWith (lit ".gz") url
      then match gunzip buf with
           | inl msg => inl msg
           | inr raw => inr (toStringUtf8 raw)
           end
      else inr (toStringUtf8 buf)
  end.

(** [/<loc>([^<]+)<\/loc>/gi] *)
Definition re_loc : regex :=
  seqs [wordI "<loc>"; Group 1 (Plus (notChr 60)); wordI "</loc>"].

Definition extractLocs (xml : jsstring) : list jsstring :=
  List.map (fun m => trim (capture 1 m)) (matchAll false re_loc xml).

(** [/^\s*sitemap:\s*(.+)\s*$/gmi] *)
Definition re_sitemapLine : regex :=
  seqs [Bol; Star space; wordI "sitemap:"; Star space; Group 1 (Plus dot);
        Star space; Eol].

(** [getRobotsSitemaps(baseUrl)]: it sends request 0. *)
Definition getRobotsSitemaps (baseUrl : jsstring) : list jsstring :=
  let robotsUrl := baseUrl ++ lit "/robots.txt" in
  let txt := match fetchText 0 robotsUrl with
             | inr txt => txt
             | inl _ => []
             end in
  let lines :=
    List.map (fun m => trim (capture 1 m)) (matchAll true re_sitemapLine txt) in
  let fallbackSitemaps :=
    [baseUrl ++ lit "/sitemap.xml";
     baseUrl ++ lit "/sitemap_index.xml";
     baseUrl ++ lit "/sitemap-index.xml"] in
  if (0 <? length lines)%nat then lines else fallbackSitemaps.

(** The variables of [collectAllUrls]; [requests] lists the calls of
    [fetchText], in order (it is not a variable of the source). *)
Record walk := MkWalk {
  queue : list jsstring;
  seenSitemaps : list jsstring;
  urls : list jsstring;
  processedCount : nat;
  requests : list jsstring
}.

(** [/<sitemapindex\b/i] *)
Definition re_sitemapindex : regex := seqs [wordI "<sitemapindex"; WordB].

(** One turn of the [while (queue.length)] loop, with [sitemapUrl] shifted
    off the queue [rest]. *)
Definition turn (sitemapUrl : jsstring) (rest : list jsstring) (w : walk)
    : walk :=
  if bool_decide (sitemapUrl = []) || has sitemapUrl (seenSitemaps w)
  then MkWalk rest (seenSitemaps w) (urls w) (processedCount w) (requests w)
  else
    let seen := add sitemapUrl (seenSitemaps w) in
    let count := S (processedCount w) in
    let reqs := requests w ++ [sitemapUrl] in
    match fetchText (length (requests w)) sitemapUrl with
    | inl _ => MkWalk rest seen (urls w) count reqs
    | inr xml =>
        if test false re_sitemapindex xml
        then MkWalk (rest ++ extractLocs xml) seen (urls w) count reqs
        else MkWalk rest seen
               (fold_left (fun urls url => add url urls) (extractLocs xml)
                  (urls w))
               count reqs
    end.

Fixpoint loop (fuel : nat) (w : walk) : option walk :=
  match queue w with
  | [] => Some w
  | sitemapUrl :: rest =>
      match fuel with
      | O => None
      | S fuel' => loop fuel' (turn sitemapUrl rest w)
      end
  end.

Definition start (baseUrl : jsstring) : walk :=
  MkWalk (getRobotsSitemaps baseUrl) [] [] 0
    [baseUrl ++ lit "/robots.txt"].

(** [collectAllUrls(baseUrl)], with [fuel] turns of the loop at most. *)
Definition collectAllUrls (fuel : nat) (baseUrl : jsstring)
    : option (list jsstring) :=
  w ← loop fuel (start baseUrl); Some (sort (urls w)).

Context `{URLParser} `{FileSystem}.

(** [/^https?:\/\//i] and [/\/+$/] *)
Definition re_scheme : regex :=
  seqs [Bol; wordI "http"; Alt (chrI 115) Eps; word "://"].
Definition re_trailingSlashes : regex := seqs [Plus (chr 47); Eol].

(** [normalizeUrl(url)]; [None] is [null]. *)
Definition normalizeUrl (url : jsstring) : option jsstring :=
  if bool_decide (url = []) then None
  else
    let url := trim url in
    let url :=
      if negb (test false re_scheme url) then lit "https://" ++ url
      else url in
    let url := replaceFirst false re_trailingSlashes [] url in
    match parseURL url with
    | Some _ => Some url
    | None => None
    end.

(** [extractPathnames(urls, baseUrl)]; [None] when [new URL(baseUrl)]
    throws. *)
Definition extractPathnames (urls : list jsstring) (baseUrl : jsstring)
    : option (list jsstring) :=
  match parseURL baseUrl with
  | None => None
  | Some base =>
      let host0 := host base in
      Some (sort (setOf
        (List.map
           (fun url =>
              match parseURL url with
              | Some u =>
                  if bool_decide (pathname u = []) then lit "/"
                  else pathname u
              | None => lit "/"
              end)
           (List.filter
              (fun url =>
                 match parseURL url with
                 | Some u => bool_decide (host u = host0)
                 | None => false
                 end)
              urls))))
  end.

(** The first question of [main]: the answers are read until
    [normalizeUrl] accepts one. *)
Fixpoint askWebsiteUrl (answers : list jsstring) : option jsstring :=
  match answers with
  | [] => None
  | input :: answers' =>
      match normalizeUrl input with
      | Some websiteUrl => Some websiteUrl
      | None => askWebsiteUrl answers'
      end
  end.

Fixpoint preview (index : nat) (pathnames : list jsstring) : list effect :=
  match pathnames with
  | [] => []
  | path :: rest =>
      Log (lit "  " ++ ofNat (index + 1) ++ lit ". " ++ path)
        :: preview (S index) rest
  end.

Definition noUrlsMessage : jsstring :=
  lit "❌ No URLs found in sitemaps. The website might not have sitemaps or they might be inaccessible.".

(** [main], from the return of [collectAllUrls] on. [WriteFile] is the
    call of [fs.writeFile]; when its promise is rejected, as when
    [new URL] throws in [extractPathnames], the [catch] prints the message
    and the [finally] closes the input. *)
Definition report (websiteUrl : jsstring) (urls : list jsstring)
    : list effect :=
  if bool_decide (length urls = 0%nat) then [Log noUrlsMessage; Close; Close]
  else
    match extractPathnames urls websiteUrl with
    | None => [Error (lit "❌ Error: Invalid URL"); Close]
    | Some pathnames =>
        let data := join (lit "
") pathnames in
        WriteFile (lit "url.txt") data
          :: match writeFile (lit "url.txt") data with
             | Some message => [Error (lit "❌ Error: " ++ message); Close]
             | None =>
                 [Log (lit "
✅ Success!");
                  Log (lit "📊 Found " ++ ofNat (length urls)
                         ++ lit " total URLs");
                  Log (lit "🛤️  Extracted " ++ ofNat (length pathnames)
                         ++ lit " unique pathnames");
                  Log (lit "💾 Saved pathnames to url.txt")]
                 ++ (if (0 <? length pathnames)%nat
                     then Log (lit "
📋 Preview of first 10 pathnames:")
                            :: preview 0 (take 10 pathnames)
                            ++ (if (10 <? length pathnames)%nat
                                then [Log (lit "  ... and "
                                             ++ ofNat (length pathnames - 10)
                                             ++ lit " more")]
                                else [])
                     else [])
                 ++ [Close]
             end
    end.

(** [main()]: [answers] are the lines typed at the question; [None] when
    none is accepted or the walk of the sitemaps needs more than [fuel]
    turns. The lines printed before [collectAllUrls] returns are left
    out. *)
Definition main (fuel : nat) (answers : list jsstring)
    : option (list effect) :=
  websiteUrl ← askWebsiteUrl answers;
  urls ← collectAllUrls fuel websiteUrl;
  Some (report websiteUrl urls).

End WithPlatform.
End ExtractUrls.

(** ** audit-redirect.js *)

Module AuditRedirect.
Section WithPlatform.
Context `{Network}.

Definition baseUrl : jsstring := lit "https://www.condo-world.com".

(** A row of failed-redirects.csv; its [status] is a number or ['Error']. *)
Record failure := MkFailure {
  from : jsstring;
  expected : jsstring;
  actual : jsstring;
  failStatus : N + jsstring
}.

Definition isRedirect (status : N) : bool :=
  (N.eqb status 301 || N.eqb status 302 || N.eqb status 308
   || N.eqb status 307)%N.

(** [checkRedirect(fromUrl, expectedToUrl)] when [n] requests have been sent:
    the number of requests sent and [failedRedirects] afterwards. *)
Definition checkRedirect (fromUrl expectedToUrl : jsstring)
    (st : nat * list failure) : nat * list failure :=
  let (n, failedRedirects) := st in
  let threw n' msg :=
    (n', failedRedirects ++
           [MkFailure fromUrl expectedToUrl (lit "Error: " ++ msg)
              (inr (lit "Error"))]) in
  match fetch n Manual (baseUrl ++ fromUrl) with
  | inl msg => threw (S n) msg
  | inr response =>
      let status0 := status response in
      if isRedirect status0 then
        match fetch (S n) Follow (baseUrl ++ fromUrl) with
        | inl msg => threw (S (S n)) msg
        | inr followResponse =>
            let followLocation := url followResponse in
            let followStatus := status followResponse in
            if bool_decide (followLocation = baseUrl ++ expectedToUrl)
               || N.eqb followStatus 200
            then (S (S n), failedRedirects)
            else
              (S (S n), failedRedirects ++
                          [MkFailure fromUrl expectedToUrl followLocation
                             (inl followStatus)])
        end
      else if N.eqb status0 200 then (S n, failedRedirects)
      else
        (S n, failedRedirects ++
                [MkFailure fromUrl expectedToUrl [] (inl status0)])
  end.

(** [auditRedirects()]: the rows of the CSV file, one after the other. *)
Definition auditRedirects (redirects : list (jsstring * jsstring))
    : nat * list failure :=
  fold_left (fun st '(from, to) => checkRedirect from to st) redirects (O, []).

End WithPlatform.
End AuditRedirect.

(** ** convert-pathnames-to-json.mjs *)

Module ConvertPathnames.

(** [path.basename(p, ext)] *)
Class Path := {
  basename : jsstring -> jsstring -> jsstring
}.

Section WithPlatform.
Context `{Path}.

(** [s.replace(p, r)] for a pattern that is a string: its first occurrence. *)
Fixpoint replace (p r s : jsstring) : jsstring :=
  if startsWith p s then r ++ drop (length p) s
  else match s with
       | [] => []
       | c :: s' => c :: replace p r s'
       end.

Record metadata := MkMetadata {
  totalPathnames : nat;
  generatedAt : jsstring;
  sourceFile : jsstring
}.

Record jsonData := MkJsonData {
  site : jsstring;
  base : jsstring;
  pathnames : list jsstring;
  meta : metadata
}.

(** The object [convertPathnamesToJson(inputFile, outputFile)] serialises
    into [outputFile]: [content] is the text of [inputFile] and [now] is
    [new Date().toISOString()]. *)
Definition convertPathnamesToJson (inputFile content now : jsstring)
    : jsonData :=
  let pathnames :=
    List.filter (fun line => (0 <? length line)%nat)
      (List.map (fun line => trim line) (split 10 content)) in
  let siteName := replace (lit "-pathnames") [] (basename inputFile (lit ".txt")) in
  MkJsonData siteName (lit "https://www." ++ siteName ++ lit ".com") pathnames
    (MkMetadata (length pathnames) now inputFile).

(** The arguments of the script: [process.argv[2] || default] and
    [process.argv[3] || inputFile.replace('.txt', '.json')]; [None] is
    [undefined]. *)
Definition orElse (arg : option jsstring) (other : jsstring) : jsstring :=
  match arg with
  | Some a => if bool_decide (a = []) then other else a
  | None => other
  end.

Definition inputFileOf (argv2 : option jsstring) : jsstring :=
  orElse argv2 (lit "./sites-url-pathnames/mbgolf-pathnames.txt").

Definition outputFileOf (argv3 : option jsstring) (inputFile : jsstring)
    : jsstring :=
  orElse argv3 (replace (lit ".txt") (lit ".json") inputFile).

End WithPlatform.
End ConvertPathnames.

(** ** A small platform, for examples

    A URL parser for URLs of the form [https://host/path?query#fragment],
    a site of a few pages and a scheduler that answers the oldest request
    first. *)

Module Demo.

Fixpoint upTo (stop : N → bool) (s : jsstring) : jsstring :=
  match s with
  | [] => []
  | c :: s' => if stop c then [] else c :: upTo stop s'
  end.

Fixpoint from (stop : N → bool) (s : jsstring) : jsstring :=
  match s with
  | [] => []
  | c :: s' => if stop c then s else from stop s'
  end.

Definition parse (s : jsstring) : option URL :=
  if startsWith (lit "https://") s then
    let rest := drop 8 s in
    let isSlash c := N.eqb c 47 in
    let isMark c := N.eqb c 63 || N.eqb c 35 in
    let hostname := upTo isSlash rest in
    let path := from isSlash rest in
    let origin := lit "https://" ++ hostname in
    if bool_decide (hostname = []) then None
    else
      Some (MkURL (origin ++ (if bool_decide (path = []) then lit "/" else path))
              (lit "https:") hostname hostname origin
              (if bool_decide (path = []) then lit "/" else upTo isMark path))
  else None.

Definition parseWithBase (s base : jsstring) : option URL :=
  match parse base with
  | Some b => parse (origin b ++ s)
  | None => None
  end.

Definition parser : URLParser := Build_URLParser parse parseWithBase.

Definition page (html : string) : jsstring + Response :=
  inr (MkResponse true 200 (Some (lit "text/html; charset=utf-8")) None []
         (inr (lit html)) (inr [])).

Definition notFound : jsstring + Response :=
  inr (MkResponse false 404 (Some (lit "text/html")) None []
         (inr []) (inr [])).

Definition home : string :=
  "<html><body><a class='nav' href='/about'>About</a>
   <a href='https://other.com/x'>Elsewhere</a>
   <img alt='logo' src='/img/logo.png?v=2'>
   <form method='post' action='/search#top'></form></body></html>".

Definition hub : string :=
  "<a href='/p0'>0</a><a href='/p1'>1</a><a href='/p2'>2</a><a href='/p3'>3</a>
   <a href='/p4'>4</a><a href='/p5'>5</a><a href='/p6'>6</a><a href='/p7'>7</a>
   <a href='/p8'>8</a><a href='/p9'>9</a><a href='/p10'>10</a>".

Definition site (n : nat) (mode : redirect) (url : jsstring)
    : jsstring + Response :=
  if bool_decide (url = lit "https://example.com") then page home
  else if bool_decide (url = lit "https://example.com/about")
  then page "<a href='/'>Home</a> <a href='/about/team'>Team</a>"
  else if bool_decide (url = lit "https://example.com/hub") then page hub
  else notFound.

(** [new URL("https://example.com")] *)
Definition base : URL :=
  MkURL (lit "https://example.com/") (lit "https:") (lit "example.com")
    (lit "example.com") (lit "https://example.com") (lit "/").

Definition network : Network := Build_Network site.

Definition oldestFirst : Scheduler := Build_Scheduler (λ _, 0%nat).

(** A server that redirects every old path to one page, which it serves. *)
Definition redirecting (n : nat) (mode : redirect) (url : jsstring)
    : jsstring + Response :=
  match mode with
  | Manual =>
      inr (MkResponse false 301 None (Some (lit "/moved")) url
             (inr []) (inr []))
  | Follow =>
      inr (MkResponse true 200 (Some (lit "text/html")) None
             (lit "https://www.condo-world.com/moved") (inr []) (inr []))
  end.

Definition moved : Network := Build_Network redirecting.

(** A site whose sitemap index lists itself and a sitemap of two pages. *)
Definition file (body : string) : jsstring + Response :=
  inr (MkResponse true 200 (Some (lit "application/xml")) None []
         (inr (lit body))
         (inr (List.map N_of_ascii (list_ascii_of_string body)))).

Definition robots : string :=
  "User-agent: *
Sitemap: https://example.com/index.xml
".

Definition index : string :=
  "<sitemapindex><sitemap><loc>https://example.com/index.xml</loc></sitemap>
   <sitemap><loc>https://example.com/pages.xml</loc></sitemap></sitemapindex>".

Definition pages : string :=
  "<urlset><url><loc>https://example.com/</loc></url>
   <url><loc>https://example.com/about</loc></url></urlset>".

Definition sitemapSite (n : nat) (mode : redirect) (url : jsstring)
    : jsstring + Response :=
  if bool_decide (url = lit "https://example.com/robots.txt") then file robots
  else if bool_decide (url = lit "https://example.com/index.xml")
  then file index
  else if bool_decide (url = lit "https://example.com/pages.xml")
  then file pages
  else notFound.

Definition sitemaps : Network := Build_Network sitemapSite.

Definition codec : ExtractUrls.Codec := ExtractUrls.Build_Codec inr ofUtf8.

(** A disk on which every file can be written. *)
Definition disk : ExtractUrls.FileSystem :=
  ExtractUrls.Build_FileSystem (λ _ _, None).

(** [path.basename] for a file name without directory. *)
Definition path : ConvertPathnames.Path :=
  ConvertPathnames.Build_Path
    (λ p ext, if endsWith ext p then take (length p - length ext) p else p).

End Demo.

(** ** The predicates of the properties *)

Module Spec.

Section Crawl.
Context `{URLParser}.
Import CrawlUrls.
Implicit Types (st : crawl) (ph : phase) (c : phase * crawl).

(** The pathname of a discovered URL, as [extractPathnames] computes it. *)
Definition pathnameOf (url : jsstring) : jsstring :=
  match parseURL url with
  | Some u => cleanPathname (orRoot (pathname u))
  | None => lit "/"
  end.

Definition sameHost (host : jsstring) (url : jsstring) : bool :=
  match parseURL url with
  | Some u => bool_decide (hostname u = host)
  | None => false
  end.

(** The URLs dequeued whose callback has not started, and the requests that
    have not been answered. *)
Definition pending ph : list jsstring :=
  match ph with
  | Starting batch _ => batch
  | _ => []
  end.

Definition flying ph : list (nat * jsstring) :=
  match ph with
  | Starting _ inflight | Awaiting inflight => inflight
  | _ => []
  end.

(** The invariant of the loop. *)
Record crawlInv c : Prop := CrawlInv {
  inv_requests : requests c.2 = visited c.2;
  inv_pages : pagesProcessed c.2 = Z.of_nat (length (visited c.2));
  inv_visited : NoDup (visited c.2);
  inv_toVisit : NoDup (toVisit c.2);
  inv_disjoint : ∀ u, u ∈ toVisit c.2 → u ∉ visited c.2;
  inv_pending : NoDup (pending c.1);
  inv_dequeued : ∀ u, u ∈ pending c.1 → (u ∉ visited c.2) ∧ (u ∉ toVisit c.2);
  inv_flying : ∀ n u, (n, u) ∈ flying c.1 → requests c.2 !! n = Some u
}.



(** The discovered URLs have passed the filters of [extractUrls]. *)
Definition sameDomainOnly (baseUrl : URL) c : Prop :=
  ∀ u, u ∈ discoveredUrls c.2 →
       isSameDomain u baseUrl = true ∧ isValidUrl u = true.

(** No URL but the seed is known to the loop. *)
Definition onlySeed (startUrl : jsstring) c : Prop :=
  (∀ u, u ∈ toVisit c.2 → u = startUrl)
  ∧ (∀ u, u ∈ visited c.2 → u = startUrl)
  ∧ (∀ u, u ∈ pending c.1 → u = startUrl)
  ∧ (∀ n u, (n, u) ∈ flying c.1 → u = startUrl).

End Crawl.

Section CrawlRun.
Context `{URLParser} `{Network}.
Import CrawlUrls.
Implicit Types (st : crawl) (ph : phase) (c : phase * crawl).

(** The URL [u] was extracted from the page of one of the first [m]
    requests, the request [n] for [src], whose URL has a depth below
    [maxDepth]. *)
Definition foundOn (baseUrl : URL) (maxDepth : Z) st (m : nat)
    (u : jsstring) : Prop :=
  ∃ n src html,
    (n < m)%nat
    ∧ requests st !! n = Some src
    ∧ fetchPage n src = inr html
    ∧ u ∈ extractUrls html baseUrl
    ∧ urlDepth src < maxDepth.

(** Every URL that waits to be requested is the seed or was found on the
    page of a request that was sent; and the request [m] is for the seed or
    for a URL found on the page of one of the requests before it. *)
Definition traced (startUrl : jsstring) (baseUrl : URL) (maxDepth : Z) c
    : Prop :=
  (∀ u, u ∈ toVisit c.2 ∨ u ∈ pending c.1 →
        u = startUrl
        ∨ foundOn baseUrl maxDepth c.2 (length (requests c.2)) u)
  ∧ (∀ m u, requests c.2 !! m = Some u →
            u = startUrl ∨ foundOn baseUrl maxDepth c.2 m u).

(** The message of an error of [fetchPage] names the URL. *)
Definition namesUrl (e : jsstring * jsstring) : Prop :=
  startsWith (lit "Failed to fetch " ++ e.1 ++ lit ": ") e.2 = true.

(** One error at most is recorded for a URL, and none for a request that
    is not answered yet. *)
Definition errorsInv c : Prop :=
  NoDup ((errors c.2).*1 ++ (flying c.1).*2)
  ∧ (∀ u, u ∈ (errors c.2).*1 ++ (flying c.1).*2 → u ∈ visited c.2)
  ∧ Forall namesUrl (errors c.2).


(** The string [u] is the [href] of a URL that the parser has built. *)
Definition normalized (u : jsstring) : Prop :=
  ∃ s o, href o = u
         ∧ (parseURL s = Some o ∨ ∃ b, parseURLWithBase s b = Some o).

End CrawlRun.

Section Redirect.
Context `{Network}.
Import AuditRedirect.

(** The old URL redirects to the expected new URL: the first response is a
    redirection and the redirections end at [baseUrl + expectedToUrl]. *)
Definition redirectsTo (n : nat) (fromUrl expectedToUrl : jsstring) : bool :=
  match fetch n Manual (baseUrl ++ fromUrl) with
  | inr response =>
      isRedirect (status response)
      && match fetch (S n) Follow (baseUrl ++ fromUrl) with
         | inr followResponse =>
             bool_decide (url followResponse = baseUrl ++ expectedToUrl)
         | inl _ => false
         end
  | inl _ => false
  end.

(** What [checkRedirect] lets pass: a first response 200, or a redirection
    that ends at the expected URL or with the status 200. *)
Definition passes (n : nat) (fromUrl expectedToUrl : jsstring) : bool :=
  match fetch n Manual (baseUrl ++ fromUrl) with
  | inr response =>
      if isRedirect (status response) then
        match fetch (S n) Follow (baseUrl ++ fromUrl) with
        | inr followResponse =>
            bool_decide (url followResponse = baseUrl ++ expectedToUrl)
            || N.eqb (status followResponse) 200
        | inl _ => false
        end
      else N.eqb (status response) 200
  | inl _ => false
  end.

(** The row of the CSV file that a failure reports. *)
Definition rowOf (f : failure) : jsstring * jsstring := (from f, expected f).

End Redirect.

Section Sitemap.
Context `{Network} `{ExtractUrls.Codec}.
Import ExtractUrls.
Implicit Types (w : walk).

(** The state after [k] turns of the loop of [collectAllUrls], or at its
    end if it ends before. *)
Fixpoint turns (k : nat) w : walk :=
  match k, queue w with
  | S k', sitemapUrl :: rest => turns k' (turn sitemapUrl rest w)
  | _, _ => w
  end.

(** The requests after the one for robots.txt are the sitemaps seen. *)
Record walkInv w : Prop := WalkInv {
  winv_requests : ∃ robots, requests w = robots :: seenSitemaps w;
  winv_seen : NoDup (seenSitemaps w)
}.

(** The child sitemaps that the sitemap indexes of the server mention,
    whenever it is asked, all belong to the list [universe]. *)
Definition mentioned (universe : list jsstring) : Prop :=
  ∀ n url xml loc,
    fetchText n url = inr xml →
    Regex.test false re_sitemapindex xml = true →
    loc ∈ extractLocs xml → loc ∈ universe.

(** A URL that a sitemap which is no index lists: the walk [w] has sent a
    request [n], after the one for robots.txt, for a sitemap URL that is not
    empty, and the document that this request gave holds the URL between
    [<loc>] and [</loc>]. *)
Definition harvested w (u : jsstring) : Prop :=
  ∃ n sitemapUrl xml,
    (0 < n)%nat ∧ sitemapUrl ≠ []
    ∧ requests w !! n = Some sitemapUrl
    ∧ fetchText n sitemapUrl = inr xml
    ∧ Regex.test false re_sitemapindex xml = false
    ∧ u ∈ extractLocs xml.

(** The paths that [collectAllUrls] asks for when robots.txt names no
    sitemap, in the order of the requests. *)
Definition fallbackPaths : list jsstring :=
  [lit "/robots.txt"; lit "/sitemap.xml"; lit "/sitemap_index.xml";
   lit "/sitemap-index.xml"].

End Sitemap.

Section Patterns.
Import Regex.

(** What the matcher computes for the greedy star of a class of one code
    unit, by recursion on the input: as many code units of the class as
    the rest of the pattern [k] allows, the most first. *)
Fixpoint starChr (p : N → bool) (k : mstate → option mstate)
    (prev : option N) (s : jsstring) (caps : list (nat * jsstring))
    : option mstate :=
  match s with
  | c :: tl =>
      if p c then
        match starChr p k (Some c) tl caps with
        | Some z => Some z
        | None => k (MState prev s caps)
        end
      else k (MState prev s caps)
  | [] => k (MState prev [] caps)
  end.

(** The rest of a pattern that ends with [$]. *)
Definition endOfInput (y : mstate) : option mstate := mtch false Eol y Some.

End Patterns.

End Spec.

Import Spec.

(** * Properties *)

(** ** Sets and sorting of strings *)

Section JSFacts.
Implicit Types (x y : jsstring) (s l : list jsstring).

Lemma has_true x s : has x s = true ↔ x ∈ s.
Proof. unfold has. apply bool_decide_eq_true. Qed.

Lemma has_false x s : has x s = false ↔ x ∉ s.
Proof. unfold has. apply bool_decide_eq_false. Qed.

Lemma elem_of_add y x s : y ∈ add x s ↔ y = x ∨ y ∈ s.
Proof.
  unfold add. destruct (has x s) eqn:E.
  - apply has_true in E. split; [auto | intros [-> | ?]; done].
  - rewrite elem_of_app, list_elem_of_singleton. tauto.
Qed.

Lemma NoDup_add x s : NoDup s → NoDup (add x s).
Proof.
  intros Hs. unfold add. destruct (has x s) eqn:E; [done |].
  apply has_false in E. apply NoDup_app. split_and!; [done | | apply NoDup_singleton].
  intros z Hz ->%list_elem_of_singleton. done.
Qed.

Lemma add_length x s : (length s ≤ length (add x s))%nat.
Proof. unfold add. destruct (has x s); [done |]. rewrite length_app. lia. Qed.

Lemma elem_of_delete y x s : y ∈ delete x s ↔ y ∈ s ∧ y ≠ x.
Proof.
  unfold delete. rewrite !list_elem_of_In, filter_In, negb_true_iff, bool_decide_eq_false.
  done.
Qed.

Lemma NoDup_delete x s : NoDup s → NoDup (delete x s).
Proof.
  unfold delete. induction 1 as [| z s Hz Hs IH]; simpl; [constructor |].
  destruct (negb _); [| done]. constructor; [| done].
  intros Hin. apply Hz. change (z ∈ delete x s) in Hin.
  apply elem_of_delete in Hin. tauto.
Qed.

Lemma elem_of_fold_add y l s :
  y ∈ fold_left (λ s x, add x s) l s ↔ y ∈ l ∨ y ∈ s.
Proof.
  revert s. induction l as [| x l IH]; intros s; simpl.
  - rewrite elem_of_nil. tauto.
  - rewrite IH, elem_of_add, elem_of_cons. tauto.
Qed.

Lemma NoDup_fold_add l s : NoDup s → NoDup (fold_left (λ s x, add x s) l s).
Proof.
  revert s. induction l as [| x l IH]; intros s Hs; simpl; [done |].
  by apply IH, NoDup_add.
Qed.

Lemma elem_of_setOf y l : y ∈ setOf l ↔ y ∈ l.
Proof. unfold setOf. rewrite elem_of_fold_add, elem_of_nil. tauto. Qed.

Lemma NoDup_setOf l : NoDup (setOf l).
Proof. apply NoDup_fold_add, NoDup_nil_2. Qed.

(** The ordinal order is a strict total order. *)
Lemma ltb_irrefl x : ltb x x = false.
Proof.
  induction x as [| a x IH]; simpl; [done |].
  rewrite N.ltb_irrefl, N.eqb_refl, IH. done.
Qed.

Lemma ltb_trans x y z : ltb x y = true → ltb y z = true → ltb x z = true.
Proof.
  revert y z. induction x as [| a x IH]; intros [| b y] [| c z]; simpl; try done.
  rewrite !orb_true_iff, !andb_true_iff, !N.ltb_lt, !N.eqb_eq.
  intros [Hab | [-> Hxy]] [Hbc | [-> Hyz]]; try (left; lia); try (by left).
  right. split; [done |]. by eapply IH.
Qed.

Lemma ltb_connex x y : ltb x y = false → ltb y x = false → x = y.
Proof.
  revert y. induction x as [| a x IH]; intros [| b y]; simpl; try done.
  rewrite !orb_false_iff, !andb_false_iff, !N.ltb_ge, !N.eqb_neq.
  intros [Hab H1] [Hba H2].
  assert (a = b) as -> by lia. f_equal. apply IH; tauto.
Qed.

Lemma ltb_asym x y : ltb x y = true → ltb y x = false.
Proof.
  intros H. destruct (ltb y x) eqn:E; [| done].
  pose proof (ltb_trans _ _ _ H E) as Hxx. by rewrite ltb_irrefl in Hxx.
Qed.

#[local] Instance le_trans : Transitive le.
Proof.
  intros x y z. unfold le, leb. rewrite !negb_true_iff. intros Hyx Hzy.
  destruct (ltb z x) eqn:E; [| done].
  destruct (ltb x y) eqn:E1.
  - by rewrite (ltb_trans _ _ _ E E1) in Hzy.
  - assert (x = y) as -> by (by apply ltb_connex). congruence.
Qed.

#[local] Instance le_total : Total le.
Proof.
  intros x y. unfold le, leb. rewrite !negb_true_iff.
  destruct (ltb y x) eqn:E; [right; by apply ltb_asym | by left].
Qed.

#[local] Instance le_antisym : AntiSymm (=) le.
Proof.
  intros x y. unfold le, leb. rewrite !negb_true_iff. intros. by apply ltb_connex.
Qed.

Lemma insert_Permutation x l : insert x l ≡ₚ x :: l.
Proof.
  induction l as [| y l IH]; simpl; [done |].
  destruct (leb x y); [done |]. rewrite IH. apply perm_swap.
Qed.

Lemma sort_Permutation l : sort l ≡ₚ l.
Proof.
  induction l as [| x l IH]; simpl; [done |].
  by rewrite insert_Permutation, IH.
Qed.

Lemma insert_Sorted x l : Sorted le l → Sorted le (insert x l).
Proof.
  induction 1 as [| y l Hl IH Hy]; simpl; [repeat constructor |].
  destruct (leb x y) eqn:E.
  - constructor; [by constructor |]. by constructor.
  - constructor; [done |].
    assert (le y x) as Hyx.
    { destruct (le_total x y) as [H | H]; [unfold le in H; congruence | done]. }
    destruct Hy as [| z l Hz]; simpl; [by constructor |].
    destruct (leb x z); by constructor.
Qed.

Lemma sort_Sorted l : Sorted le (sort l).
Proof.
  induction l as [| x l IH]; simpl; [constructor | by apply insert_Sorted].
Qed.

Lemma elem_of_sort y l : y ∈ sort l ↔ y ∈ l.
Proof. by rewrite sort_Permutation. Qed.

Lemma sort_length l : length (sort l) = length l.
Proof. by rewrite sort_Permutation. Qed.

(** Without duplicates the sorted list is strictly increasing. *)
Lemma sort_strict l : NoDup l → StronglySorted lt (sort l).
Proof.
  intros Hl. assert (NoDup (sort l)) as Hn by (by rewrite sort_Permutation).
  pose proof (Sorted_StronglySorted le _ (sort_Sorted l)) as Hs.
  induction Hs as [| x k Hk IH Hx]; [constructor |].
  apply NoDup_cons in Hn as [Hxk Hn]. constructor; [by apply IH |].
  apply Forall_forall. intros y Hy.
  rewrite Forall_forall in Hx. specialize (Hx y Hy).
  unfold lt. unfold le, leb in Hx. apply negb_true_iff in Hx.
  destruct (ltb x y) eqn:E; [done |].
  assert (x = y) as -> by (by apply ltb_connex). done.
Qed.

(** The sorted list of a set does not depend on the order of insertion. *)
Lemma sort_unique l k :
  NoDup l → NoDup k → (∀ x, x ∈ l ↔ x ∈ k) → sort l = sort k.
Proof.
  intros Hl Hk Hlk.
  apply (Sorted_unique le); [apply sort_Sorted | apply sort_Sorted |].
  rewrite !sort_Permutation. by apply NoDup_Permutation.
Qed.

Lemma startsWith_app x y : startsWith x (x ++ y) = true.
Proof. induction x as [| a x IH]; simpl; [done |]. by rewrite N.eqb_refl. Qed.

End JSFacts.

(** ** crawl-urls.mjs: the reduction to pathnames *)

Section PathnameFacts.
Context `{URLParser}.
Import CrawlUrls.

Lemma cleanPathname_root pathname :
  startsWith (lit "/") (cleanPathname pathname) = true.
Proof.
  unfold cleanPathname. cbv zeta.
  destruct (startsWith (lit "/") (first _)) eqn:E; cbn [negb]; [done |].
  apply startsWith_app.
Qed.

Lemma extractPathnames_unfold urls baseUrl :
  extractPathnames urls baseUrl =
  sort (setOf (List.filter isValidPathname
                 (List.map pathnameOf
                    (List.filter (sameHost (hostname baseUrl)) urls)))).
Proof. reflexivity. Qed.

Lemma elem_of_extractPathnames p urls baseUrl :
  p ∈ extractPathnames urls baseUrl ↔
  isValidPathname p = true
  ∧ ∃ url, url ∈ urls ∧ sameHost (hostname baseUrl) url = true
           ∧ p = pathnameOf url.
Proof.
  rewrite extractPathnames_unfold, elem_of_sort, elem_of_setOf.
  rewrite list_elem_of_In, filter_In, in_map_iff.
  split.
  - intros [(url & <- & [Hin Hs]%filter_In) Hv]. split; [done |].
    exists url. by rewrite list_elem_of_In.
  - intros [Hv (url & Hin & Hs & ->)]. split; [| done].
    exists url. split; [done |]. apply filter_In. by rewrite <- list_elem_of_In.
Qed.

(** C7: [extractPathnames] returns a list without duplicates, strictly
    increasing in the ordinal order of strings, whose entries all start with
    a slash; and it depends on the set of the discovered URLs only, so that
    reducing the same set again, listed in any order and with any
    repetitions, gives the identical list. *)
Theorem extractPathnames_sorted_set (urls urls' : list jsstring) (baseUrl : URL) :
  let out := extractPathnames urls baseUrl in
  NoDup out
  ∧ StronglySorted JS.lt out
  ∧ Forall (λ p, startsWith (lit "/") p = true) out
  ∧ ((∀ u, u ∈ urls ↔ u ∈ urls') → extractPathnames urls' baseUrl = out).
Proof.
  intros out. unfold out. split_and!.
  - rewrite extractPathnames_unfold, sort_Permutation. apply NoDup_setOf.
  - rewrite extractPathnames_unfold. apply sort_strict, NoDup_setOf.
  - apply Forall_forall. intros p [_ (url & _ & Hs & ->)]%elem_of_extractPathnames.
    unfold pathnameOf. destruct (parseURL url); [apply cleanPathname_root | done].
  - intros Hset. rewrite !extractPathnames_unfold.
    apply sort_unique; [apply NoDup_setOf .. |].
    intros p. rewrite !elem_of_setOf, !list_elem_of_In, !filter_In, !in_map_iff.
    split; intros [(url & <- & [Hin Hs]%filter_In) Hv]; (split; [| done]);
      exists url; (split; [done |]); apply filter_In; (split; [| done]);
      apply list_elem_of_In, Hset, list_elem_of_In, Hin.
Qed.

End PathnameFacts.

(** ** crawl-urls.mjs: the crawl loop *)

Section CrawlFacts.
Context `{URLParser} `{Network} `{Scheduler}.
Import CrawlUrls.
Implicit Types (st : crawl) (ph : phase) (c : phase * crawl).
Implicit Types (u url : jsstring) (batch : list jsstring).
Implicit Types (inflight : list (nat * jsstring)).

Lemma elem_of_deleteAll u batch s :
  u ∈ deleteAll batch s ↔ u ∈ s ∧ u ∉ batch.
Proof.
  unfold deleteAll. revert s.
  induction batch as [| x batch IH]; intros s; simpl.
  - rewrite elem_of_nil. tauto.
  - rewrite IH, elem_of_delete, not_elem_of_cons. tauto.
Qed.

Lemma NoDup_deleteAll batch s : NoDup s → NoDup (deleteAll batch s).
Proof.
  unfold deleteAll. revert s.
  induction batch as [| x batch IH]; intros s Hs; simpl; [done |].
  by apply IH, NoDup_delete.
Qed.

(** What [foundUrls.forEach] leaves untouched, and what it may add. *)
Lemma found_fold_fixed maxDepth url l st :
  let st' := fold_left (found maxDepth url) l st in
  visited st' = visited st ∧ errors st' = errors st
  ∧ pagesProcessed st' = pagesProcessed st ∧ requests st' = requests st.
Proof.
  revert st. induction l as [| f l IH]; intros st; simpl; [done |].
  destruct (IH (found maxDepth url st f)) as (-> & -> & -> & ->). done.
Qed.

Lemma found_fold_toVisit maxDepth url l st u :
  u ∈ toVisit (fold_left (found maxDepth url) l st) →
  u ∈ toVisit st
  ∨ (u ∈ l ∧ (u ∉ visited st) ∧ (urlDepth url < maxDepth)).
Proof.
  revert st. induction l as [| f l IH]; intros st; simpl; [by left |].
  intros [Hu | (Hu & Hv & Hd)]%IH.
  - simpl in Hu.
    destruct (urlDepth url <? maxDepth) eqn:Ed; simpl in Hu; [| by left].
    destruct (has f (visited st)) eqn:Ef; simpl in Hu; [by left |].
    apply elem_of_add in Hu as [-> | Hu]; [| by left].
    right. split_and!; [left | by apply has_false | lia].
  - right. split_and!; [by right | done | done].
Qed.

Lemma found_fold_NoDup maxDepth url l st :
  NoDup (toVisit st) → NoDup (toVisit (fold_left (found maxDepth url) l st)).
Proof.
  revert st. induction l as [| f l IH]; intros st Hst; simpl; [done |].
  apply IH. simpl. destruct (_ && _); [by apply NoDup_add | done].
Qed.

Lemma resume_fixed baseUrl maxDepth n url st :
  let st' := resume baseUrl maxDepth n url st in
  visited st' = visited st ∧ pagesProcessed st' = pagesProcessed st
  ∧ requests st' = requests st.
Proof.
  unfold resume. destruct (fetchPage n url) as [msg | html]; simpl; [done |].
  pose proof (found_fold_fixed maxDepth url (extractUrls html baseUrl) st) as HH.
  simpl in HH. tauto.
Qed.

Lemma resume_toVisit baseUrl maxDepth n url st u :
  u ∈ toVisit (resume baseUrl maxDepth n url st) →
  u ∈ toVisit st ∨ ((u ∉ visited st) ∧ (urlDepth url < maxDepth)).
Proof.
  unfold resume. destruct (fetchPage n url); simpl; [by left |].
  intros [? | (_ & ? & ?)]%found_fold_toVisit; [by left | by right].
Qed.

Lemma resume_NoDup baseUrl maxDepth n url st :
  NoDup (toVisit st) → NoDup (toVisit (resume baseUrl maxDepth n url st)).
Proof.
  unfold resume. destruct (fetchPage n url); simpl; [done |].
  apply found_fold_NoDup.
Qed.

(** The promise answered next is one of those in flight. *)
Lemma nth_pick inflight n0 url0 :
  let l := (n0, url0) :: inflight in
  let i := (pick l mod length l)%nat in
  (i < length l)%nat ∧ nth i l (n0, url0) ∈ l
  ∧ take i l ++ drop (S i) l ⊆ l
  ∧ length (take i l ++ drop (S i) l) = length inflight.
Proof.
  intros l i.
  assert (i < length l)%nat as Hi by (apply Nat.mod_upper_bound; done).
  split_and!; [done | | |].
  - apply list_elem_of_In, nth_In, Hi.
  - intros x [Hx | Hx]%elem_of_app.
    + by eapply subseteq_take.
    + by eapply subseteq_drop.
  - rewrite length_app, length_take, length_drop. simpl in *. lia.
Qed.

Lemma crawlInv_initial startUrl : crawlInv (initial startUrl).
Proof.
  split; simpl; try done.
  - apply NoDup_nil_2.
  - apply NoDup_singleton.
  - intros u _. apply not_elem_of_nil.
  - apply NoDup_nil_2.
  - intros u Hu. by apply elem_of_nil in Hu.
  - intros n u Hu. by apply elem_of_nil in Hu.
Qed.

#[local] Arguments Nat.modulo : simpl never.
#[local] Arguments nth : simpl never.
#[local] Arguments take : simpl never.
#[local] Arguments drop : simpl never.

Lemma crawlInv_step baseUrl maxPages maxDepth c :
  crawlInv c → crawlInv (step baseUrl maxPages maxDepth c).
Proof.
  destruct c as [ph st]. intros [Hr Hp Hv Ht Hd Hb Hq Hf]. simpl in *.
  destruct ph as [| [| url batch] inflight | [| [n0 url0] inflight] |]; simpl.
  - (* the test of the loop *)
    destruct (_ && _); [| by split].
    split; simpl.
    + done.
    + done.
    + done.
    + by apply NoDup_deleteAll.
    + intros u [Hu _]%elem_of_deleteAll. by apply Hd.
    + eapply sublist_NoDup; [exact Ht | apply sublist_take].
    + intros u Hu. split.
      * apply Hd. by eapply subseteq_take.
      * rewrite elem_of_deleteAll. tauto.
    + intros n u Hu. by apply elem_of_nil in Hu.
  - (* all the callbacks have started *)
    split; simpl; try done. 
  - (* the callback of [url] starts *)
    apply NoDup_cons in Hb as [Hub Hb].
    destruct (Hq url) as [Huv Hut]; [left |].
    unfold start. apply has_false in Huv as Hhas. rewrite Hhas. simpl.
    unfold add. rewrite Hhas.
    split; simpl.
    + by rewrite Hr.
    + rewrite length_app, Hp. simpl. lia.
    + apply NoDup_app. split_and!; [done | | apply NoDup_singleton].
      intros z Hz ->%list_elem_of_singleton. done.
    + done.
    + intros u Hu [Hu' | ->%list_elem_of_singleton]%elem_of_app;
        [by eapply Hd | done].
    + done.
    + intros u Hu. destruct (Hq u) as [Hu1 Hu2]; [by right |].
      split; [| done].
      intros [Hu' | ->%list_elem_of_singleton]%elem_of_app; done.
    + intros n u [Hu | Hu%list_elem_of_singleton]%elem_of_app.
      * apply lookup_app_l_Some. by apply Hf.
      * injection Hu as -> ->. by rewrite lookup_app_r, Nat.sub_diag.
  - (* all the promises are settled *)
    split; simpl; try done.
  - (* one promise is answered *)
    destruct (nth_pick inflight n0 url0) as (Hi & Hnth & Hsub & Hlen).
    cbv zeta in Hi, Hnth, Hsub, Hlen.
    destruct (nth _ _ _) as [n url] eqn:En.
    destruct (resume_fixed baseUrl maxDepth n url st) as (Ev & Ep & Er).
    split; simpl; rewrite ?Ev, ?Ep, ?Er.
    + done.
    + done.
    + done.
    + by apply resume_NoDup.
    + intros u [Hu | [Hu _]]%resume_toVisit; [by apply Hd | done].
    + apply NoDup_nil_2.
    + intros u Hu. by apply elem_of_nil in Hu.
    + intros m u Hu. apply Hf, Hsub, Hu.
  - by split.
Qed.

Lemma crawlInv_steps baseUrl maxPages maxDepth k c :
  crawlInv c → crawlInv (steps k baseUrl maxPages maxDepth c).
Proof.
  revert c. induction k as [| k IH]; intros c Hc; simpl; [done |].
  by apply IH, crawlInv_step.
Qed.

Lemma steps_add baseUrl maxPages maxDepth j k c :
  steps (j + k) baseUrl maxPages maxDepth c
  = steps k baseUrl maxPages maxDepth (steps j baseUrl maxPages maxDepth c).
Proof. revert c. induction j as [| j IH]; intros c; simpl; [done | apply IH]. Qed.

Lemma steps_Returned baseUrl maxPages maxDepth k st :
  steps k baseUrl maxPages maxDepth (Returned, st) = (Returned, st).
Proof. induction k as [| k IH]; simpl; [done | apply IH]. Qed.

(** The callback of a visited URL returns at once. *)
Lemma start_visited url inflight st :
  url ∈ visited st → start url inflight st = (inflight, st).
Proof. intros Hu%has_true. unfold start. by rewrite Hu. Qed.

(** The set [visited] only grows. *)
Lemma step_visited baseUrl maxPages maxDepth c :
  visited c.2 `prefix_of` visited (step baseUrl maxPages maxDepth c).2.
Proof.
  destruct c as [ph st].
  destruct ph as [| [| url batch] inflight | [| [n0 url0] inflight] |]; simpl;
    try done.
  - by destruct (_ && _).
  - unfold start, add. destruct (has url (visited st)); simpl; [done |].
    by apply prefix_app_r.
  - destruct (nth _ _ _) as [n url]. simpl.
    by destruct (resume_fixed baseUrl maxDepth n url st) as (-> & _).
Qed.

Lemma steps_visited baseUrl maxPages maxDepth k c :
  visited c.2 `prefix_of` visited (steps k baseUrl maxPages maxDepth c).2.
Proof.
  revert c. induction k as [| k IH]; intros c; simpl; [done |].
  etrans; [apply step_visited | apply IH].
Qed.







Lemma crawlWebsite_fuel startUrl maxPages maxDepth fuel fuel' result :
  crawlWebsite fuel startUrl maxPages maxDepth = Returns result →
  (fuel ≤ fuel')%nat →
  crawlWebsite fuel' startUrl maxPages maxDepth = Returns result.
Proof.
  unfold crawlWebsite. destruct (parseURL startUrl) as [baseUrl |]; [| done].
  intros Hr Hle. replace fuel' with (fuel + (fuel' - fuel))%nat by lia.
  rewrite steps_add.
  destruct (steps fuel _ _ _ _) as [[] st]; try done.
  by rewrite steps_Returned.
Qed.

End CrawlFacts.

(** ** Regular expressions: the two patterns the depth heuristic rests on *)

Section RegexFacts.
Import Regex.

Lemma mtch_Chr ml p x k y :
  mtch ml (Chr p) x k = Some y →
  ∃ c tl, ms_rest x = c :: tl ∧ p c = true
          ∧ k (MState (Some c) tl (ms_caps x)) = Some y.
Proof.
  simpl. destruct (ms_rest x) as [| c tl]; [done |].
  destruct (p c) eqn:E; [| done]. intros Hk. by exists c, tl.
Qed.

Lemma mtch_Alt ml r1 r2 x k y :
  mtch ml (Alt r1 r2) x k = Some y →
  mtch ml r1 x k = Some y ∨ mtch ml r2 x k = Some y.
Proof. simpl. destruct (mtch ml r1 x k); [left | right]; done. Qed.

(** Without the flag [m] a pattern anchored by [^] matches at the start of
    the input only. *)
Lemma search_Bol r c s : search false (Seq Bol r) (Some c) s = None.
Proof. revert c. induction s as [| a s IH]; intros c; simpl; [done | apply IH]. Qed.

Lemma test_Bol r s :
  test false (Seq Bol r) s = true →
  ∃ y, mtch false r (MState None s []) Some = Some y.
Proof.
  unfold test. intros [[n y] Hs]%bool_decide_eq_true.
  destruct s as [| a s]; simpl in Hs.
  - destruct (mtch false r _ _) as [z |]; [by exists z | done].
  - destruct (mtch false r _ _) as [z |]; [by exists z |].
    by rewrite search_Bol in Hs.
Qed.

(** [s.match(/c/g)] finds every occurrence of the code unit [c]. *)
Lemma search_chr ml c prev s :
  search ml (chr c) prev s =
  match s with
  | [] => None
  | a :: tl =>
      if N.eqb c a then Some (length s, MState (Some a) tl [])
      else search ml (chr c) (Some a) tl
  end.
Proof. destruct s as [| a tl]; simpl; [done |]. by destruct (N.eqb c a). Qed.

Lemma matchAllFrom_chr ml c fuel prev s :
  (length s ≤ fuel)%nat →
  length (matchAllFrom (S fuel) ml (chr c) prev s)
  = length (List.filter (N.eqb c) s).
Proof.
  revert fuel prev. induction s as [| a s IH]; intros fuel prev Hf.
  - done.
  - cbn [matchAllFrom]. rewrite search_chr. cbn [List.filter].
    destruct (N.eqb c a) eqn:E.
    + cbn [ms_caps ms_rest ms_prev length].
      assert ((length s <? S (length s))%nat = true) as -> by (apply Nat.ltb_lt; lia).
      simpl in Hf. destruct fuel as [| fuel]; [lia |].
      rewrite IH by lia. done.
    + apply (IH fuel (Some a)). simpl in Hf. lia.
Qed.

Lemma matchAll_chr c s :
  length (matchAll false (chr c) s) = length (List.filter (N.eqb c) s).
Proof. unfold matchAll. by apply matchAllFrom_chr. Qed.

Lemma filter_length_app (f : N → bool) l k :
  length (List.filter f (l ++ k))
  = (length (List.filter f l) + length (List.filter f k))%nat.
Proof. by rewrite List.filter_app, length_app. Qed.

Lemma mtch_separator ml x k y :
  mtch ml (word "://") x k = Some y →
  ∃ rest, ms_rest x = 58%N :: 47%N :: 47%N :: rest.
Proof.
  change (word "://") with (Seq (chr 58) (Seq (chr 47) (chr 47))).
  cbn [mtch].
  intros (c1 & s1 & E1 & ->%N.eqb_eq & H1)%mtch_Chr.
  apply mtch_Chr in H1 as (c2 & s2 & E2 & ->%N.eqb_eq & H2).
  apply mtch_Chr in H2 as (c3 & s3 & E3 & ->%N.eqb_eq & H3).
  simpl in *. subst. by eexists.
Qed.

(** A string that matches the pattern of [main] for a scheme, http or https
    in any case followed by a colon and two slashes, has two slashes. *)
Lemma re_scheme_slashes s :
  test false CrawlUrls.re_scheme s = true →
  (2 ≤ length (List.filter (N.eqb 47) s))%nat.
Proof.
  intros [y Hy]%(test_Bol _ s).
  cbn [mtch seqs] in Hy.
  change (wordI "http")
    with (Seq (chrI 104) (Seq (chrI 116) (Seq (chrI 116) (chrI 112)))) in Hy.
  cbn [mtch] in Hy.
  apply mtch_Chr in Hy as (c1 & s1 & E1 & _ & Hy).
  apply mtch_Chr in Hy as (c2 & s2 & E2 & _ & Hy).
  apply mtch_Chr in Hy as (c3 & s3 & E3 & _ & Hy).
  apply mtch_Chr in Hy as (c4 & s4 & E4 & _ & Hy).
  simpl in E1, E2, E3, E4. subst s s1 s2 s3.
  assert (∃ pre rest, s4 = pre ++ 58%N :: 47%N :: 47%N :: rest)
    as (pre & rest & ->).
  { destruct (mtch false (chrI 115) _ _) as [z |] eqn:E.
    - apply mtch_Chr in E as (c5 & s5 & E5 & _ & [rest Hr]%mtch_separator).
      simpl in *. subst. by exists [c5], rest.
    - apply mtch_separator in Hy as [rest Hr]. simpl in Hr. by exists [], rest. }
  change (c1 :: c2 :: c3 :: c4 :: pre ++ 58%N :: 47%N :: 47%N :: rest)
    with ([c1; c2; c3; c4] ++ pre ++ [58%N] ++ [47%N; 47%N] ++ rest).
  rewrite !filter_length_app. simpl. lia.
Qed.

(** The depth of an http or https URL is not negative. *)
Lemma urlDepth_scheme s :
  test false CrawlUrls.re_scheme s = true → 0 ≤ CrawlUrls.urlDepth s.
Proof.
  intros Hs%re_scheme_slashes. unfold CrawlUrls.urlDepth.
  rewrite matchAll_chr. lia.
Qed.
End RegexFacts.

(** ** crawl-urls.mjs: what the crawl guarantees *)

Section CrawlTheorems.
Context `{URLParser} `{Network} `{Scheduler}.
Import CrawlUrls.
Implicit Types (st : crawl) (ph : phase) (c : phase * crawl).
Implicit Types (u url : jsstring) (batch : list jsstring).

#[local] Arguments Nat.modulo : simpl never.
#[local] Arguments nth : simpl never.
#[local] Arguments take : simpl never.
#[local] Arguments drop : simpl never.

(** *** Only URLs of the host of the seed are discovered *)

Lemma addMatches_filtered r html baseUrl urls u :
  u ∈ addMatches r html baseUrl urls →
  u ∈ urls ∨ (isSameDomain u baseUrl = true ∧ isValidUrl u = true).
Proof.
  unfold addMatches. revert urls.
  induction (Regex.matchAll false r html) as [| m ms IH]; intros urls; simpl;
    [by left |].
  intros [Hu | Hu]%IH; [| by right].
  destruct (normalizeUrl _ _) as [url |]; [| by left].
  destruct (negb _ && isSameDomain url baseUrl && isValidUrl url) eqn:E;
    [| by left].
  apply elem_of_add in Hu as [-> | Hu]; [| by left].
  apply andb_true_iff in E as [[_ E1]%andb_true_iff E2]. by right.
Qed.

Lemma extractUrls_filtered html baseUrl u :
  u ∈ extractUrls html baseUrl →
  isSameDomain u baseUrl = true ∧ isValidUrl u = true.
Proof.
  unfold extractUrls.
  intros [[[[[Hu%elem_of_nil | ?]%addMatches_filtered | ?]%addMatches_filtered
    | ?]%addMatches_filtered | ?]%addMatches_filtered | ?]%addMatches_filtered;
    done.
Qed.

Lemma found_fold_discovered maxDepth url l st u :
  u ∈ discoveredUrls (fold_left (found maxDepth url) l st) →
  u ∈ discoveredUrls st ∨ u ∈ l.
Proof.
  revert st. induction l as [| f l IH]; intros st; simpl; [by left |].
  intros [[-> | Hu]%elem_of_add | Hu]%IH;
    [right; left | by left | right; by right].
Qed.

Lemma resume_discovered baseUrl maxDepth n url st u :
  u ∈ discoveredUrls (resume baseUrl maxDepth n url st) →
  u ∈ discoveredUrls st
  ∨ (isSameDomain u baseUrl = true ∧ isValidUrl u = true).
Proof.
  unfold resume. destruct (fetchPage n url) as [msg | html]; simpl; [by left |].
  intros [? | ?%extractUrls_filtered]%found_fold_discovered; [by left | by right].
Qed.

Lemma sameDomainOnly_step baseUrl maxPages maxDepth c :
  sameDomainOnly baseUrl c →
  sameDomainOnly baseUrl (step baseUrl maxPages maxDepth c).
Proof.
  destruct c as [ph st]. unfold sameDomainOnly.
  destruct ph as [| [| url batch] inflight | [| [n0 url0] inflight] |]; simpl;
    try done.
  - by destruct (_ && _).
  - unfold start. by destruct (has url (visited st)).
  - destruct (nth _ _ _) as [n url]. simpl.
    intros Hst u [Hu | Hu]%resume_discovered; [by apply Hst | done].
Qed.

Lemma sameDomainOnly_steps baseUrl maxPages maxDepth k c :
  sameDomainOnly baseUrl c →
  sameDomainOnly baseUrl (steps k baseUrl maxPages maxDepth c).
Proof.
  revert c. induction k as [| k IH]; intros c Hc; simpl; [done |].
  by apply IH, sameDomainOnly_step.
Qed.

Lemma crawlWebsite_sameDomain fuel startUrl maxPages maxDepth baseUrl result u :
  parseURL startUrl = Some baseUrl →
  crawlWebsite fuel startUrl maxPages maxDepth = Returns result →
  u ∈ urls result →
  isSameDomain u baseUrl = true ∧ isValidUrl u = true.
Proof.
  unfold crawlWebsite. intros ->.
  pose proof (sameDomainOnly_steps baseUrl maxPages maxDepth fuel
                (initial startUrl)) as Hs.
  destruct (steps _ _ _ _ _) as [[] st]; try done.
  intros [= <-]. simpl. rewrite elem_of_sort. apply Hs.
  intros v Hv. by apply elem_of_nil in Hv.
Qed.

Lemma askWebsiteUrl_valid answers websiteUrl :
  askWebsiteUrl answers = Some websiteUrl →
  is_Some (parseURL websiteUrl)
  ∧ Regex.test false re_scheme websiteUrl = true.
Proof.
  induction answers as [| input answers IH]; simpl; [done |].
  destruct (websiteUrlOf input) as [w |] eqn:E; [| done].
  intros [= ->]. unfold websiteUrlOf in E.
  destruct (bool_decide (trim input = [])); [done |].
  destruct (Regex.test false re_scheme (trim input)) eqn:Et; cbn [negb] in E.
  - destruct (parseURL (trim input)) eqn:Ep; [| done].
    assert (websiteUrl = trim input) as -> by congruence.
    rewrite Ep. split; [by eexists | done].
  - destruct (parseURL (lit "https://" ++ trim input)) eqn:Ep; [| done].
    assert (websiteUrl = lit "https://" ++ trim input) as -> by congruence.
    rewrite Ep. split; [by eexists |].
    reflexivity.
Qed.

Lemma preview_Log n pathnames path data :
  WriteFile path data ∉ preview n pathnames.
Proof.
  revert n. induction pathnames as [| p ps IH]; intros n; simpl.
  - apply not_elem_of_nil.
  - apply not_elem_of_cons. split; [done | apply IH].
Qed.

(** The effects of [report]: nothing is written when no URL was discovered,
    and otherwise the file is the list of the pathnames. *)
Lemma report_WriteFile websiteUrl result path data :
  WriteFile path data ∈ report websiteUrl result ↔
  urls result ≠ []
  ∧ ∃ baseUrl, parseURL websiteUrl = Some baseUrl
      ∧ path = lit "url.txt"
      ∧ data = join (lit "
") (extractPathnames (urls result) baseUrl).
Proof.
  unfold report. destruct (urls result) as [| u0 us] eqn:Eu; simpl.
  - split; [| by intros [? _]].
    intros [Hw | Hw]%elem_of_cons; [done |].
    apply elem_of_app in Hw as [Hw | Hw].
    + destruct (0 <? _)%nat; [| by apply elem_of_nil in Hw].
      apply elem_of_cons in Hw as [Hw | Hw]; [done |].
      apply list_elem_of_fmap in Hw as ([] & ? & _). done.
    + repeat (apply elem_of_cons in Hw as [Hw | Hw]; [done |]).
      by apply elem_of_nil in Hw.
  - rewrite <- Eu. destruct (parseURL websiteUrl) as [baseUrl |].
    + split.
      * intros [Hw | Hw]%elem_of_cons.
        { injection Hw as -> ->. split; [by rewrite Eu |]. by exists baseUrl. }
        exfalso.
        repeat (apply elem_of_cons in Hw as [Hw | Hw]; [done |]).
        apply elem_of_app in Hw as [Hw | Hw].
        { destruct (0 <? _)%nat; [| by apply elem_of_nil in Hw].
          apply elem_of_cons in Hw as [Hw | Hw]; [done |].
          by apply elem_of_nil in Hw. }
        apply elem_of_app in Hw as [Hw | Hw].
        { destruct (0 <? length _)%nat; [| by apply elem_of_nil in Hw].
          apply elem_of_cons in Hw as [Hw | Hw]; [done |].
          apply elem_of_app in Hw as [Hw | Hw]; [by apply preview_Log in Hw |].
          destruct (10 <? _)%nat; [| by apply elem_of_nil in Hw].
          apply elem_of_cons in Hw as [Hw | Hw]; [done |].
          by apply elem_of_nil in Hw. }
        apply elem_of_cons in Hw as [Hw | Hw]; [done |].
        by apply elem_of_nil in Hw.
      * intros (_ & b & [= <-] & -> & ->). left.
    + split; [| by intros (_ & ? & ? & _)].
      intros Hw. repeat (apply elem_of_cons in Hw as [Hw | Hw]; [done |]).
      by apply elem_of_nil in Hw.
Qed.

Lemma resultOf_length fuel startUrl maxPages maxDepth result :
  crawlWebsite fuel startUrl maxPages maxDepth = Returns result →
  length (urls result) = totalDiscovered result.
Proof.
  unfold crawlWebsite. destruct (parseURL startUrl); [| done].
  destruct (steps _ _ _ _ _) as [[] st]; try done.
  intros [= <-]. simpl. apply sort_length.
Qed.

(** C1: whatever the seed typed at the prompt and whatever the network
    answers, the file [main] writes holds the pathnames of discovered URLs
    whose hostname is the hostname of the seed: the crawl only discovers URLs
    that [isSameDomain] accepts, and every pathname that [extractPathnames]
    returns is the cleaned pathname of such a URL. *)
Theorem output_pathnames_same_host (fuel : nat) (answers : list jsstring)
    (maxPages maxDepth : Z) (effects : list effect) (path data : jsstring) :
  main fuel answers maxPages maxDepth = Returns effects →
  WriteFile path data ∈ effects →
  ∃ websiteUrl baseUrl result,
    askWebsiteUrl answers = Some websiteUrl
    ∧ parseURL websiteUrl = Some baseUrl
    ∧ crawlWebsite fuel websiteUrl maxPages maxDepth = Returns result
    ∧ data = join (lit "
") (extractPathnames (urls result) baseUrl)
    ∧ (∀ url, url ∈ urls result → isSameDomain url baseUrl = true)
    ∧ ∀ p, p ∈ extractPathnames (urls result) baseUrl →
        ∃ url urlObj, url ∈ urls result ∧ parseURL url = Some urlObj
                      ∧ hostname urlObj = hostname baseUrl
                      ∧ p = cleanPathname (orRoot (pathname urlObj)).
Proof.
  unfold main. destruct (askWebsiteUrl answers) as [websiteUrl |] eqn:Ea; [| done].
  destruct (crawlWebsite _ _ _ _) as [result | |] eqn:Ec; [| | done].
  - intros [= <-] (_ & baseUrl & Eb & -> & ->)%report_WriteFile.
    exists websiteUrl, baseUrl, result. split_and!; try done.
    + intros url Hu. by eapply crawlWebsite_sameDomain.
    + intros p [_ (url & Hin & Hs & ->)]%elem_of_extractPathnames.
      unfold sameHost, pathnameOf in *.
      destruct (parseURL url) as [urlObj |] eqn:Eu; [| done].
      exists url, urlObj. split_and!; try done. by apply bool_decide_eq_true in Hs.
  - intros [= <-] Hw.
    repeat (apply elem_of_cons in Hw as [Hw | Hw]; [done |]).
    by apply elem_of_nil in Hw.
Qed.

(** C2: at every point of a run of [crawlWebsite], no URL has been requested
    twice; the requests are the visited URLs, in this order, so that there
    are as many calls of [fetchPage] as visited URLs; [visited] only grows; no
    URL of [toVisit] and no dequeued URL whose callback has not started is
    visited, and a dequeued URL is no longer in [toVisit]. The callback of
    a visited URL returns at once, and a discovered URL enters [toVisit] only
    if it is not visited. *)
Theorem no_url_fetched_twice (baseUrl : URL) (maxPages maxDepth : Z)
    (startUrl : jsstring) (j k : nat) :
  let run n := steps n baseUrl maxPages maxDepth (initial startUrl) in
  let st := (run (j + k)%nat).2 in
  NoDup (requests st)
  ∧ requests st = visited st
  ∧ length (requests st) = length (visited st)
  ∧ visited (run j).2 `prefix_of` visited st
  ∧ (∀ u, u ∈ toVisit st → u ∉ visited st)
  ∧ (∀ u, u ∈ pending (run (j + k)%nat).1 →
          (u ∉ visited st) ∧ (u ∉ toVisit st))
  ∧ (∀ url inflight st0,
       url ∈ visited st0 → start url inflight st0 = (inflight, st0))
  ∧ (∀ n url st0 u,
       u ∈ toVisit (resume baseUrl maxDepth n url st0) →
       u ∈ toVisit st0 ∨ u ∉ visited st0).
Proof.
  intros run st.
  pose proof (crawlInv_steps baseUrl maxPages maxDepth (j + k)
                _ (crawlInv_initial startUrl)) as [Hr Hp Hv Ht Hd Hb Hq Hf].
  fold (run (j + k)%nat) in Hr, Hp, Hv, Ht, Hd, Hb, Hq, Hf. fold st in Hr, Hv, Hd, Hq.
  split_and!; try done.
  - by rewrite Hr.
  - by rewrite Hr.
  - unfold st, run. rewrite steps_add. apply steps_visited.
  - apply start_visited.
  - intros n url st0 u [? | [? _]]%resume_toVisit; [by left | by right].
Qed.




(** *** Depth zero *)

Lemma found_deep maxDepth url st foundUrl :
  maxDepth ≤ urlDepth url → toVisit (found maxDepth url st foundUrl) = toVisit st.
Proof.
  intros Hd. unfold found. simpl.
  by assert ((urlDepth url <? maxDepth) = false) as -> by (apply Z.ltb_ge; lia).
Qed.

Lemma onlySeed_step startUrl baseUrl maxPages maxDepth c :
  maxDepth ≤ urlDepth startUrl →
  onlySeed startUrl c →
  onlySeed startUrl (step baseUrl maxPages maxDepth c).
Proof.
  intros Hdepth. destruct c as [ph st]. intros (Ht & Hv & Hp & Hf).
  unfold onlySeed in *.
  destruct ph as [| [| url batch] inflight | [| [n0 url0] inflight] |];
    simpl in *; try done.
  - destruct (_ && _); [| done]. simpl. split_and!; try done.
    + intros u [Hu _]%elem_of_deleteAll. by apply Ht.
    + intros u Hu. apply Ht. by eapply subseteq_take.
  - unfold start. destruct (has url (visited st)); simpl.
    + split_and!; try done. intros u Hu. apply Hp. by right.
    + split_and!; try done.
      * intros u [-> | Hu]%elem_of_add; [apply Hp; left | by apply Hv].
      * intros u Hu. apply Hp. by right.
      * intros n u [Hu | Hu%list_elem_of_singleton]%elem_of_app;
          [by eapply Hf |].
        injection Hu as -> ->. apply Hp. left.
  - destruct (nth_pick inflight n0 url0) as (_ & Hnth & Hsub & _).
    cbv zeta in Hnth, Hsub. simpl in Hnth, Hsub.
    destruct (nth _ _ _) as [n url]. simpl.
    assert (url = startUrl) as -> by (by eapply Hf).
    destruct (resume_fixed baseUrl maxDepth n startUrl st) as (-> & _).
    split_and!; try done.
    + intros u [Hu | [_ Hd]]%resume_toVisit; [by apply Ht | lia].
    + intros m u Hu. eapply Hf, Hsub, Hu.
Qed.

Lemma onlySeed_steps startUrl baseUrl maxPages maxDepth k c :
  maxDepth ≤ urlDepth startUrl →
  onlySeed startUrl c →
  onlySeed startUrl (steps k baseUrl maxPages maxDepth c).
Proof.
  intros Hd. revert c. induction k as [| k IH]; intros c Hc; simpl; [done |].
  by apply IH, onlySeed_step.
Qed.

Lemma NoDup_constant (a : jsstring) (l : list jsstring) :
  NoDup l → (∀ x, x ∈ l → x = a) → l = [] ∨ l = [a].
Proof.
  intros Hl Ha. destruct l as [| x [| y l]]; [by left | right | exfalso].
  - f_equal. apply Ha. left.
  - apply NoDup_cons in Hl as [Hx _]. apply Hx.
    rewrite (Ha x), (Ha y); [left | right; left | left].
Qed.

(** C5: for a seed that is an http or https URL, as [main] makes it, the
    count of slashes minus 2 is not negative, so with [maxDepth = 0] the
    condition [urlDepth < maxDepth] fails for every URL found on its page:
    at every point of the run the only request sent, if any, is for the
    seed, and [toVisit] is empty or holds the seed alone. *)
Theorem maxDepth_zero_only_seed (startUrl : jsstring) (baseUrl : URL)
    (maxPages : Z) (k : nat) :
  Regex.test false re_scheme startUrl = true →
  let c := steps k baseUrl maxPages 0 (initial startUrl) in
  0 ≤ urlDepth startUrl
  ∧ (requests c.2 = [] ∨ requests c.2 = [startUrl])
  ∧ (toVisit c.2 = [] ∨ toVisit c.2 = [startUrl])
  ∧ pagesProcessed c.2 ≤ 1
  ∧ (∀ n st, toVisit (resume baseUrl 0 n startUrl st) = toVisit st).
Proof.
  intros Hd%urlDepth_scheme c.
  pose proof (crawlInv_steps baseUrl maxPages 0 k
                _ (crawlInv_initial startUrl)) as [Hr Hp Hv Ht _ _ _ _].
  destruct (onlySeed_steps startUrl baseUrl maxPages 0 k
              (initial startUrl) Hd) as (Hst & Hsv & _ & _).
  { unfold onlySeed. simpl. split_and!; try done.
    - by intros u ->%list_elem_of_singleton.
    - intros u Hu. by apply elem_of_nil in Hu.
    - intros u Hu. by apply elem_of_nil in Hu.
    - intros n u Hu. by apply elem_of_nil in Hu. }
  fold c in Hr, Hp, Hv, Ht, Hst, Hsv.
  assert (visited c.2 = [] ∨ visited c.2 = [startUrl]) as Hvis
    by (by apply NoDup_constant).
  split_and!.
  - done.
  - by rewrite Hr.
  - by apply NoDup_constant.
  - rewrite Hp. destruct Hvis as [-> | ->]; simpl; lia.
  - intros n st. unfold resume.
    destruct (fetchPage n startUrl) as [msg | html]; [done |].
    generalize (extractUrls html baseUrl). intros l. revert st.
    induction l as [| f l IH]; intros st; simpl; [done |].
    rewrite IH. by apply found_deep.
Qed.

(** *** The report of [main] *)

(** C8: when the crawl has discovered no URL, [main] writes no file: it
    prints the message that no URL was discovered and then, if errors were
    recorded, a heading and one line for each of them, in the order in which
    they were recorded, that gives the URL and the message of the error;
    when one URL at least was discovered it writes url.txt. So a file is
    written if and only if a URL was discovered. *)
Theorem no_urls_no_file (fuel : nat) (answers : list jsstring)
    (maxPages maxDepth : Z) (websiteUrl : jsstring) (result : CrawlResult) :
  askWebsiteUrl answers = Some websiteUrl →
  crawlWebsite fuel websiteUrl maxPages maxDepth = Returns result →
  ∃ effects,
    main fuel answers maxPages maxDepth = Returns effects
    ∧ (totalDiscovered result = 0%nat →
         effects =
           Log (lit "❌ No URLs discovered. The website might be inaccessible or have no crawlable content.")
             :: match resultErrors result with
                | [] => []
                | _ :: _ =>
                    Log (lit "
Errors encountered:")
                      :: List.map
                           (λ '(url, error),
                              Log (lit "  - " ++ url ++ lit ": " ++ error))
                           (resultErrors result)
                end
             ++ [Close; Close])
    ∧ (totalDiscovered result ≠ 0%nat →
         ∃ data, WriteFile (lit "url.txt") data ∈ effects)
    ∧ ((∃ path data, WriteFile path data ∈ effects)
         ↔ totalDiscovered result ≠ 0%nat).
Proof.
  intros Ha Hc. unfold main. rewrite Ha, Hc. eexists. split; [done |].
  destruct (askWebsiteUrl_valid _ _ Ha) as [[baseUrl Hb] _].
  pose proof (resultOf_length _ _ _ _ _ Hc) as Hlen.
  assert (∀ path data, WriteFile path data ∈ report websiteUrl result →
            totalDiscovered result ≠ 0%nat) as Honly.
  { intros path data [Hne _]%report_WriteFile. rewrite <- Hlen.
    by destruct (urls result). }
  assert (totalDiscovered result ≠ 0%nat →
          ∃ data, WriteFile (lit "url.txt") data ∈ report websiteUrl result)
    as Hsome.
  { intros Hne. eexists. apply report_WriteFile. split.
    - intros E. by rewrite E in Hlen.
    - by exists baseUrl. }
  split_and!.
  - intros E0. rewrite <- Hlen in E0. unfold report.
    rewrite bool_decide_eq_true_2 by done.
    unfold noUrlsMessage.
    change errorLine
      with (λ '(url, error), Log (lit "  - " ++ url ++ lit ": " ++ error)).
    destruct (resultErrors result) as [| [url error] errors]; reflexivity.
  - done.
  - split.
    + intros (path & data & Hw). by eapply Honly.
    + intros Hne. destruct (Hsome Hne) as [data Hd]. by eexists _, _.
Qed.

End CrawlTheorems.

(** ** crawl-urls.mjs: the validity filters *)

Section ValidityFacts.
Context `{URLParser}.
Import CrawlUrls Regex.

Lemma mtch_Star_Some ml r x : is_Some (mtch ml (Star r) x Some).
Proof.
  cbn [mtch]. generalize (length (ms_rest x)). intros n.
  cbn. destruct (mtch ml r x _); by eexists.
Qed.

Lemma search_app ml r prev a s :
  (∀ prev', is_Some (mtch ml r (MState prev' s []) Some)) →
  is_Some (search ml r prev (a ++ s)).
Proof.
  intros Hs. revert prev. induction a as [| c a IH]; intros prev.
  - destruct (Hs prev) as [y Hy]. destruct s; simpl; rewrite Hy; by eexists.
  - simpl. destruct (mtch ml r _ _); [by eexists | apply IH].
Qed.

Lemma mtch_Seq ml r1 r2 x k :
  mtch ml (Seq r1 r2) x k = mtch ml r1 x (λ y, mtch ml r2 y k).
Proof. reflexivity. Qed.

Lemma mtch_chr_cons ml c prev s caps k :
  mtch ml (chr c) (MState prev (c :: s) caps) k = k (MState (Some c) s caps).
Proof. simpl. by rewrite N.eqb_refl. Qed.

(** Two [%] in a row anywhere in a string match [/[%]{2,}/]. *)
Lemma test_percents a b :
  test false re_percents (a ++ 37%N :: 37%N :: b) = true.
Proof.
  unfold test. apply bool_decide_eq_true, search_app. intros prev.
  change re_percents with (Seq (chr 37) (Seq (chr 37) (Star (chr 37)))).
  rewrite mtch_Seq, mtch_chr_cons, mtch_Seq, mtch_chr_cons.
  apply mtch_Star_Some.
Qed.

Lemma isValidPathname_percents a b :
  isValidPathname (a ++ 37%N :: 37%N :: b) = false.
Proof.
  unfold isValidPathname. rewrite test_percents.
  rewrite !bool_decide_eq_false_2; cycle 1.
  { intros E. apply (f_equal length) in E. rewrite length_app in E.
    simpl in E. lia. }
  { by destruct a. }
  cbn [orb].
  repeat match goal with
         | |- (if ?b then _ else _) = false => destruct b; [done |]
         end.
  done.
Qed.

Lemma isValidUrl_percents url urlObj a b :
  parseURL url = Some urlObj →
  pathname urlObj = a ++ 37%N :: 37%N :: b →
  isValidUrl url = false.
Proof.
  intros Hp Hpath. unfold isValidUrl. rewrite Hp, Hpath, test_percents.
  repeat match goal with
         | |- (if ?b then _ else _) = false => destruct b; [done |]
         end.
  done.
Qed.

(** C4, as the code has it: both filters reject [/foo%3Cscript%3E], accept
    [/normal/page.html] and accept the root path; they reject every path in
    which two [%] follow each other; the path [/a%25%25b] has no such pair
    and both accept it, but [cleanPathname] decodes it into [/a%%b], which
    [isValidPathname] rejects, so that [extractPathnames] drops it. *)
Theorem validity_filter_examples (url : jsstring) (urlObj : URL) :
  parseURL url = Some urlObj →
  (pathname urlObj = lit "/foo%3Cscript%3E" → isValidUrl url = false)
  ∧ (pathname urlObj = lit "/normal/page.html" → isValidUrl url = true)
  ∧ (pathname urlObj = lit "/" → isValidUrl url = true)
  ∧ (pathname urlObj = lit "/a%25%25b" → isValidUrl url = true)
  ∧ (∀ a b, pathname urlObj = a ++ lit "%%" ++ b → isValidUrl url = false)
  ∧ isValidPathname (lit "/foo%3Cscript%3E") = false
  ∧ isValidPathname (lit "/normal/page.html") = true
  ∧ isValidPathname (lit "/") = true
  ∧ isValidPathname (lit "/a%25%25b") = true
  ∧ (∀ a b, isValidPathname (a ++ lit "%%" ++ b) = false)
  ∧ cleanPathname (lit "/a%25%25b") = lit "/a%%b"
  ∧ isValidPathname (cleanPathname (lit "/a%25%25b")) = false.
Proof.
  intros Hp.
  assert (∀ p, pathname urlObj = lit p →
               isValidUrl url
               = isValidUrl (H := Build_URLParser
                                    (λ _, Some (MkURL [] [] [] [] [] (lit p)))
                                    (λ _ _, None)) [])
    as Hfix.
  { intros p Hpath. unfold isValidUrl. simpl. by rewrite Hp, Hpath. }
  split_and!.
  - intros Hpath. rewrite (Hfix _ Hpath). vm_compute. reflexivity.
  - intros Hpath. rewrite (Hfix _ Hpath). vm_compute. reflexivity.
  - intros Hpath. rewrite (Hfix _ Hpath). vm_compute. reflexivity.
  - intros Hpath. rewrite (Hfix _ Hpath). vm_compute. reflexivity.
  - intros a b Hpath. eapply isValidUrl_percents; [exact Hp | exact Hpath].
  - by vm_compute.
  - by vm_compute.
  - by vm_compute.
  - by vm_compute.
  - intros a b. exact (isValidPathname_percents a b).
  - by vm_compute.
  - by vm_compute.
Qed.

End ValidityFacts.

(** The path [/a%25%25b] passes both filters. *)
Lemma double_percent_accepted :
  CrawlUrls.isValidPathname (lit "/a%25%25b") = true
  ∧ Demo.parse (lit "https://example.com/a%25%25b")
    = Some (MkURL (lit "https://example.com/a%25%25b") (lit "https:")
              (lit "example.com") (lit "example.com")
              (lit "https://example.com") (lit "/a%25%25b"))
  ∧ CrawlUrls.isValidUrl (H := Demo.parser) (lit "https://example.com/a%25%25b")
    = true.
Proof. by vm_compute. Qed.

(** ** audit-redirect.js *)

Section RedirectFacts.
Context `{Network}.
Import AuditRedirect.

(** C3, as the code has it: a row [(old, new)] is appended to
    [failedRedirects] if and only if the request fails, or the first response
    is neither a redirection nor 200, or it is a redirection and the followed
    response neither ends at [baseUrl + new] nor has the status 200. An old
    URL that redirects to the expected URL is never recorded; one that does
    not redirect but answers 200, or that redirects elsewhere to a page
    answering 200, is not recorded either. *)
Theorem checkRedirect_records (fromUrl expectedToUrl : jsstring) (n : nat)
    (failedRedirects : list failure) :
  let after := (checkRedirect fromUrl expectedToUrl (n, failedRedirects)).2 in
  (passes n fromUrl expectedToUrl = true → after = failedRedirects)
  ∧ (passes n fromUrl expectedToUrl = false →
       ∃ actual status,
         after = failedRedirects
                   ++ [MkFailure fromUrl expectedToUrl actual status])
  ∧ (after ≠ failedRedirects ↔ passes n fromUrl expectedToUrl = false)
  ∧ (redirectsTo n fromUrl expectedToUrl = true → after = failedRedirects).
Proof.
  intros after.
  assert (∀ x, failedRedirects ++ [x] ≠ failedRedirects) as Hne.
  { intros x E. apply (f_equal length) in E. rewrite length_app in E.
    simpl in E. lia. }
  assert ((passes n fromUrl expectedToUrl = true ∧ after = failedRedirects)
          ∨ (passes n fromUrl expectedToUrl = false
             ∧ ∃ actual status,
                 after = failedRedirects
                           ++ [MkFailure fromUrl expectedToUrl actual status]))
    as Hcases.
  { unfold after, passes, checkRedirect.
    destruct (fetch n Manual _) as [msg | response]; simpl;
      [right; eauto |].
    destruct (isRedirect (status response)).
    - destruct (fetch (S n) Follow _) as [msg | followResponse]; simpl;
        [right; eauto |].
      destruct (_ || _); simpl; [by left | right; eauto].
    - destruct (N.eqb _ 200); simpl; [by left | right; eauto]. }
  assert (redirectsTo n fromUrl expectedToUrl = true →
          passes n fromUrl expectedToUrl = true) as Hok.
  { unfold redirectsTo, passes.
    destruct (fetch n Manual _) as [msg | response]; [done |].
    destruct (isRedirect (status response)); [| done]. simpl.
    destruct (fetch (S n) Follow _) as [msg | followResponse]; [done |].
    by intros ->. }
  split_and!.
  - intros Hp. destruct Hcases as [[_ ?] | [? _]]; [done | congruence].
  - intros Hp. destruct Hcases as [[? _] | [_ ?]]; [congruence | done].
  - destruct Hcases as [[Hp ->] | [Hp (a & s & ->)]]; rewrite Hp.
    + split; [done | done].
    + split; [done | intros _; apply Hne].
  - intros Hr%Hok. destruct Hcases as [[_ ?] | [? _]]; [done | congruence].
Qed.

End RedirectFacts.

(** The server [Demo.moved] sends every old URL to [/moved]: the row
    [(/old, /new)] does not redirect to [/new], and it is not recorded. *)
Lemma wrong_destination_not_recorded :
  redirectsTo (H := Demo.moved) 0 (lit "/old") (lit "/new") = false
  ∧ (AuditRedirect.checkRedirect (H := Demo.moved) (lit "/old") (lit "/new")
       (0%nat, [])).2 = [].
Proof. by vm_compute. Qed.

(** ** The sitemap harvester *)

Section SitemapFacts.
Context `{Network} `{ExtractUrls.Codec}.
Import ExtractUrls.
Implicit Types (w : walk) (u : jsstring).

Lemma loop_turns fuel w w' : loop fuel w = Some w' → w' = turns fuel w.
Proof.
  revert w. induction fuel as [| fuel IH]; intros w; simpl.
  - destruct (queue w); [by intros [= ->] | done].
  - destruct (queue w); [by intros [= ->] | apply IH].
Qed.

Lemma walkInv_turn sitemapUrl rest w :
  walkInv w → walkInv (turn sitemapUrl rest w).
Proof.
  intros [[robots Hr] Hs]. unfold turn.
  destruct (bool_decide (sitemapUrl = []) || has sitemapUrl (seenSitemaps w))
    eqn:E; [by split; [exists robots |] |].
  apply orb_false_iff in E as [_ E]. unfold add. rewrite E.
  apply has_false in E.
  assert (walkInv (MkWalk rest (seenSitemaps w ++ [sitemapUrl]) (urls w)
                     (S (processedCount w)) (requests w ++ [sitemapUrl])))
    as Hinv.
  { split; simpl.
    - exists robots. by rewrite Hr.
    - apply NoDup_app. split_and!; [done | | apply NoDup_singleton].
      intros z Hz ->%list_elem_of_singleton. done. }
  destruct Hinv as [Hr' Hs']. simpl in *.
  destruct (fetchText _ _) as [msg | xml]; [by split |].
  destruct (Regex.test _ _ _); by split.
Qed.

Lemma walkInv_turns k w : walkInv w → walkInv (turns k w).
Proof.
  revert w. induction k as [| k IH]; intros w Hw; simpl.
  - by destruct (queue w).
  - destruct (queue w) as [| s rest]; [done |]. by apply IH, walkInv_turn.
Qed.

Lemma walkInv_start baseUrl : walkInv (start baseUrl).
Proof. split; simpl; [by eexists | apply NoDup_nil_2]. Qed.

(** A sitemap that was seen is skipped: no request is sent. *)
Lemma turn_seen sitemapUrl rest w :
  sitemapUrl ∈ seenSitemaps w →
  turn sitemapUrl rest w
  = MkWalk rest (seenSitemaps w) (urls w) (processedCount w) (requests w).
Proof.
  intros Hs%has_true. unfold turn. rewrite Hs. by rewrite orb_true_r.
Qed.

Lemma turn_queue universe sitemapUrl rest w u :
  mentioned universe →
  u ∈ queue (turn sitemapUrl rest w) → u ∈ rest ∨ u ∈ universe.
Proof.
  intros Hm. unfold turn.
  destruct (_ || _); simpl; [by left |].
  destruct (fetchText _ _) as [msg | xml] eqn:Ef; simpl; [by left |].
  destruct (Regex.test _ _ _) eqn:Et; simpl; [| by left].
  intros [Hu | Hu]%elem_of_app; [by left | right]. by eapply Hm.
Qed.

Lemma turn_seenSitemaps sitemapUrl rest w :
  seenSitemaps (turn sitemapUrl rest w) = seenSitemaps w
  ∨ ((sitemapUrl ∉ seenSitemaps w)
     ∧ seenSitemaps (turn sitemapUrl rest w) = seenSitemaps w ++ [sitemapUrl]).
Proof.
  unfold turn.
  destruct (bool_decide (sitemapUrl = []) || has sitemapUrl (seenSitemaps w))
    eqn:E; simpl; [by left |].
  apply orb_false_iff in E as [_ E]. unfold add. rewrite E.
  apply has_false in E. right. split; [done |].
  destruct (fetchText _ _) as [msg | xml]; [done |].
  by destruct (Regex.test _ _ _).
Qed.

Lemma turn_skip_queue sitemapUrl rest w :
  seenSitemaps (turn sitemapUrl rest w) = seenSitemaps w →
  walkInv w →
  queue (turn sitemapUrl rest w) = rest.
Proof.
  intros Hsame [_ Hnd]. unfold turn in *.
  destruct (bool_decide (sitemapUrl = []) || has sitemapUrl (seenSitemaps w))
    eqn:E; simpl; [done |].
  exfalso. apply orb_false_iff in E as [_ E].
  assert (seenSitemaps w ++ [sitemapUrl] = seenSitemaps w) as Hlen.
  { rewrite <- Hsame at 2. unfold add. rewrite E.
    destruct (fetchText _ _) as [msg | xml]; [done |].
    by destruct (Regex.test _ _ _). }
  apply (f_equal length) in Hlen. rewrite length_app in Hlen. simpl in Hlen. lia.
Qed.

Lemma loop_terminates universe :
  mentioned universe →
  ∀ m w,
    walkInv w →
    (∀ u, u ∈ queue w → u ∈ universe) →
    (∀ u, u ∈ seenSitemaps w → u ∈ universe) →
    (length (remove_dups universe) ≤ m + length (seenSitemaps w))%nat →
    ∃ fuel w', loop fuel w = Some w'.
Proof.
  intros Hm. induction m as [| m IHm].
  - (* every URL of the universe is seen: the queue is only skipped *)
    intros w. remember (queue w) as q eqn:Eq. revert w Eq.
    induction q as [| s rest IHq]; intros w Eq Hinv Hq Hs Hlen.
    + exists 0%nat, w. simpl. by rewrite <- Eq.
    + destruct (turn_seenSitemaps s rest w) as [Hsame | [Hnew Hgrow]].
      * destruct (IHq (turn s rest w)) as (fuel & w' & Hloop).
        { symmetry. by apply turn_skip_queue. }
        { by apply walkInv_turn. }
        { intros u Hu. apply Hq. by right. }
        { by rewrite Hsame. }
        { by rewrite Hsame. }
        exists (S fuel), w'. simpl. by rewrite <- Eq.
      * exfalso.
        assert (seenSitemaps w ++ [s] ⊆+ remove_dups universe) as Hsub.
        { apply NoDup_submseteq.
          - rewrite <- Hgrow. apply walkInv_turn, Hinv.
          - intros u [Hu | ->%list_elem_of_singleton]%elem_of_app;
              apply elem_of_remove_dups; [by apply Hs |].
            apply Hq. left. }
        apply submseteq_length in Hsub. rewrite length_app in Hsub.
        simpl in *. lia.
  - intros w. remember (queue w) as q eqn:Eq. revert w Eq.
    induction q as [| s rest IHq]; intros w Eq Hinv Hq Hs Hlen.
    + exists 0%nat, w. simpl. by rewrite <- Eq.
    + assert (∃ fuel w', loop fuel (turn s rest w) = Some w')
        as (fuel & w' & Hloop).
      { destruct (turn_seenSitemaps s rest w) as [Hsame | [Hnew Hgrow]].
        - apply IHq.
          + symmetry. by apply turn_skip_queue.
          + by apply walkInv_turn.
          + intros u Hu. apply Hq. by right.
          + by rewrite Hsame.
          + by rewrite Hsame.
        - apply IHm.
          + by apply walkInv_turn.
          + intros u [Hu | Hu]%(turn_queue universe); [| done | done].
            apply Hq. by right.
          + rewrite Hgrow.
            intros u [Hu | ->%list_elem_of_singleton]%elem_of_app;
              [by apply Hs |].
            apply Hq. left.
          + rewrite Hgrow, length_app. simpl. lia. }
      exists (S fuel), w'. simpl. by rewrite <- Eq.
Qed.

(** C9: at every turn of the loop of [collectAllUrls] the requests sent
    after the one for robots.txt are the sitemaps seen, each of them once; a
    sitemap that was seen is skipped without a request; and when the child
    sitemaps that the responses of sitemap indexes mention all belong to one
    finite list, whatever the server answers and even if indexes mention
    each other, [collectAllUrls] returns. *)
Theorem sitemaps_fetched_once (baseUrl : jsstring) :
  (∀ k, let w := turns k (start baseUrl) in
        NoDup (drop 1 (requests w))
        ∧ drop 1 (requests w) = seenSitemaps w)
  ∧ (∀ sitemapUrl rest w,
       sitemapUrl ∈ seenSitemaps w →
       requests (turn sitemapUrl rest w) = requests w)
  ∧ (∀ universe,
       mentioned universe →
       ∃ fuel urls, collectAllUrls fuel baseUrl = Some urls).
Proof.
  split_and!.
  - intros k w.
    destruct (walkInv_turns k _ (walkInv_start baseUrl)) as [[robots Hr] Hs].
    fold w in Hr, Hs. rewrite Hr. simpl. by rewrite drop_0.
  - intros sitemapUrl rest w Hs. by rewrite turn_seen.
  - intros universe Hm.
    destruct (loop_terminates (getRobotsSitemaps baseUrl ++ universe))
      with (m := length (remove_dups (getRobotsSitemaps baseUrl ++ universe)))
           (w := start baseUrl)
      as (fuel & w' & Hloop).
    + intros n url xml loc Hf Ht Hl. apply elem_of_app. right. by eapply Hm.
    + apply walkInv_start.
    + intros u Hu. apply elem_of_app. by left.
    + intros u Hu. by apply elem_of_nil in Hu.
    + lia.
    + exists fuel, (sort (urls w')). unfold collectAllUrls. by rewrite Hloop.
Qed.

End SitemapFacts.

(** ** convert-pathnames-to-json.mjs *)

Section ConvertFacts.
Context `{ConvertPathnames.Path}.
Import ConvertPathnames.
Implicit Types (s t : jsstring) (c : N) (ls : list jsstring).

Lemma split_nonempty c s : split c s ≠ [].
Proof.
  destruct s as [| a s]; simpl; [done |].
  destruct (N.eqb a c); [done |]. by destruct (split c s).
Qed.

(** The pieces of [s.split(c)], joined by [c], are [s]; none contains [c]. *)
Lemma join_split c s : join [c] (split c s) = s.
Proof.
  induction s as [| a s IH]; simpl; [done |].
  destruct (N.eqb a c) eqn:E.
  - apply N.eqb_eq in E as ->.
    pose proof (split_nonempty c s) as Hne.
    destruct (split c s) as [| w ws]; [done |]. simpl in *. by rewrite IH.
  - pose proof (split_nonempty c s) as Hne.
    destruct (split c s) as [| w ws]; [done |].
    simpl in *. destruct ws; simpl in *; by rewrite <- IH.
Qed.

Lemma split_free c s : Forall (λ l, c ∉ l) (split c s).
Proof.
  induction s as [| a s IH]; simpl.
  - constructor; [apply not_elem_of_nil | constructor].
  - destruct (N.eqb a c) eqn:E.
    + constructor; [apply not_elem_of_nil | done].
    + apply N.eqb_neq in E.
      destruct (split c s) as [| w ws].
      * constructor; [| constructor]. by intros ->%list_elem_of_singleton.
      * apply Forall_cons in IH as [Hw Hws]. constructor; [| done].
        apply not_elem_of_cons. split; [congruence | done].
Qed.

(** Lines that are free of [c] are the pieces of their join. *)
Lemma split_free_line c s : c ∉ s → split c s = [s].
Proof.
  induction s as [| a s IH]; simpl; [done |].
  intros [Hca Hs]%not_elem_of_cons.
  rewrite (proj2 (N.eqb_neq a c)) by congruence. by rewrite IH.
Qed.

Lemma split_app c s t : c ∉ s → split c (s ++ c :: t) = s :: split c t.
Proof.
  induction s as [| a s IH]; simpl.
  - intros _. by rewrite N.eqb_refl.
  - intros [Hca Hs]%not_elem_of_cons.
    rewrite (proj2 (N.eqb_neq a c)) by congruence. by rewrite IH.
Qed.

Lemma split_join c ls :
  ls ≠ [] → Forall (λ l, c ∉ l) ls → split c (join [c] ls) = ls.
Proof.
  induction ls as [| l ls IH]; [done |]. intros _ [Hl Hls]%Forall_cons.
  destruct ls as [| l' ls].
  - simpl. by apply split_free_line.
  - change (join [c] (l :: l' :: ls)) with (l ++ c :: join [c] (l' :: ls)).
    rewrite split_app by done. f_equal. by apply IH.
Qed.

(** What [trim] leaves has no white space at either end. *)
Lemma trimStart_head s c : head (trimStart s) = Some c → isSpace c = false.
Proof.
  induction s as [| a s IH]; simpl; [done |].
  destruct (isSpace a) eqn:E; [done |]. simpl. by intros [= <-].
Qed.

Lemma trimStart_suffix s : trimStart s `suffix_of` s.
Proof.
  induction s as [| a s IH]; simpl; [done |].
  destruct (isSpace a); [by apply suffix_cons_r | done].
Qed.

Lemma last_rev s : last (rev s) = head s.
Proof. destruct s as [| a s]; simpl; [done | apply last_snoc]. Qed.

Lemma trim_last s c : last (trim s) = Some c → isSpace c = false.
Proof. unfold trim, trimEnd. rewrite last_rev. apply trimStart_head. Qed.

Lemma trim_head s c : head (trim s) = Some c → isSpace c = false.
Proof.
  unfold trim, trimEnd. intros Hc.
  apply (trimStart_head s).
  destruct (trimStart_suffix (rev (trimStart s))) as [k Hk].
  apply (f_equal (@rev N)) in Hk. rewrite rev_involutive, rev_app_distr in Hk.
  rewrite Hk. destruct (rev (trimStart (rev (trimStart s)))); [done |].
  done.
Qed.

(** C10: the array [pathnames] of the document is made of the lines of the
    input, which are the pieces between its line feeds, each one trimmed, in
    their order, less those that are empty once trimmed; [totalPathnames]
    is the length of this array; so no entry is empty or starts or ends
    with white space. *)
Theorem pathnames_are_trimmed_lines (inputFile content now : jsstring) :
  let document := convertPathnamesToJson inputFile content now in
  ∃ lines,
    content = join (lit "
") lines
    ∧ lines ≠ []
    ∧ Forall (λ line, 10%N ∉ line) lines
    ∧ (∀ lines', lines' ≠ [] → Forall (λ line, 10%N ∉ line) lines' →
                 content = join (lit "
") lines' → lines' = lines)
    ∧ pathnames document
      = List.filter (λ line, negb (bool_decide (line = [])))
          (List.map trim lines)
    ∧ totalPathnames (meta document) = length (pathnames document)
    ∧ Forall (λ p, p ≠ []
                   ∧ (∀ c, head p = Some c → isSpace c = false)
                   ∧ (∀ c, last p = Some c → isSpace c = false))
        (pathnames document).
Proof.
  intros document. exists (split 10 content).
  change (lit "
") with [10%N].
  assert (pathnames document
          = List.filter (λ line, negb (bool_decide (line = [])))
              (List.map trim (split 10 content))) as Hp.
  { unfold document, convertPathnamesToJson. simpl.
    apply filter_ext. by intros []. }
  split_and!.
  - by rewrite join_split.
  - apply split_nonempty.
  - apply split_free.
  - intros lines' Hne Hfree ->. symmetry. by apply split_join.
  - done.
  - done.
  - rewrite Hp. apply Forall_forall. intros p.
    rewrite list_elem_of_In, filter_In, in_map_iff.
    intros [(line & <- & _) Hnonempty].
    apply negb_true_iff, bool_decide_eq_false in Hnonempty.
    split_and!; [done | apply trim_head | apply trim_last].
Qed.

End ConvertFacts.

(** ** The theorems at work on the small platform *)

Section Examples.
Import CrawlUrls.
#[local] Existing Instance Demo.parser.
#[local] Existing Instance Demo.network.
#[local] Existing Instance Demo.oldestFirst.

(** The crawl of the small site writes the five pathnames of its host. *)
Lemma output_pathnames_same_host_witness :
  ∃ websiteUrl baseUrl result,
    askWebsiteUrl [lit " "; lit " example.com "] = Some websiteUrl
    ∧ parseURL websiteUrl = Some baseUrl
    ∧ crawlWebsite 200 websiteUrl 50 2 = Returns result
    ∧ lit "/
/about
/about/team
/img/logo.png
/search"
      = join (lit "
") (extractPathnames (urls result) baseUrl)
    ∧ (∀ url, url ∈ urls result → isSameDomain url baseUrl = true)
    ∧ ∀ p, p ∈ extractPathnames (urls result) baseUrl →
        ∃ url urlObj, url ∈ urls result ∧ parseURL url = Some urlObj
                      ∧ hostname urlObj = hostname baseUrl
                      ∧ p = cleanPathname (orRoot (pathname urlObj)).
Proof.
  eapply (output_pathnames_same_host 200 [lit " "; lit " example.com "] 50 2
            _ (lit "url.txt")).
  - vm_compute. reflexivity.
  - vm_compute. left.
Defined.

(** With [maxDepth = 0] the pages that the home page links to are not
    requested. *)
Lemma maxDepth_zero_only_seed_witness :
  let c := steps 30 Demo.base 50 0 (initial (lit "https://example.com")) in
  0 ≤ urlDepth (lit "https://example.com")
  ∧ (requests c.2 = [] ∨ requests c.2 = [lit "https://example.com"])
  ∧ (toVisit c.2 = [] ∨ toVisit c.2 = [lit "https://example.com"])
  ∧ pagesProcessed c.2 ≤ 1
  ∧ (∀ n st,
       toVisit (resume Demo.base 0 n (lit "https://example.com") st)
       = toVisit st).
Proof.
  apply (maxDepth_zero_only_seed (lit "https://example.com") Demo.base 50 30).
  vm_compute. reflexivity.
Defined.


(** The bound is reached: eleven pages are processed for a budget of two. *)
Example overshoot_attained :
  ∃ result,
    crawlWebsite 100 (lit "https://example.com/hub") 2 5 = Returns result
    ∧ resultPagesProcessed result = 2 + 9.
Proof. eexists. split; [vm_compute; reflexivity | reflexivity]. Qed.


(** A seed that answers 404: nothing is discovered, nothing is written. *)
Lemma no_urls_no_file_witness :
  let result :=
    MkResult []
      [(lit "https://example.com/missing",
        lit "Failed to fetch https://example.com/missing: HTTP 404")] 1 0 in
  ∃ effects,
    main 100 [lit "example.com/missing"] 50 2 = Returns effects
    ∧ (totalDiscovered result = 0%nat →
         effects =
           Log (lit "❌ No URLs discovered. The website might be inaccessible or have no crawlable content.")
             :: match resultErrors result with
                | [] => []
                | _ :: _ =>
                    Log (lit "
Errors encountered:")
                      :: List.map
                           (λ '(url, error),
                              Log (lit "  - " ++ url ++ lit ": " ++ error))
                           (resultErrors result)
                end
             ++ [Close; Close])
    ∧ (totalDiscovered result ≠ 0%nat →
         ∃ data, WriteFile (lit "url.txt") data ∈ effects)
    ∧ ((∃ path data, WriteFile path data ∈ effects)
         ↔ totalDiscovered result ≠ 0%nat).
Proof.
  apply (no_urls_no_file 100 [lit "example.com/missing"] 50 2
           (lit "https://example.com/missing")).
  - vm_compute. reflexivity.
  - vm_compute. reflexivity.
Defined.

Lemma validity_filter_examples_witness :
  let url := lit "https://example.com/a%25%25b" in
  let urlObj :=
    MkURL (lit "https://example.com/a%25%25b") (lit "https:")
      (lit "example.com") (lit "example.com") (lit "https://example.com")
      (lit "/a%25%25b") in
  (pathname urlObj = lit "/foo%3Cscript%3E" → isValidUrl url = false)
  ∧ (pathname urlObj = lit "/normal/page.html" → isValidUrl url = true)
  ∧ (pathname urlObj = lit "/" → isValidUrl url = true)
  ∧ (pathname urlObj = lit "/a%25%25b" → isValidUrl url = true)
  ∧ (∀ a b, pathname urlObj = a ++ lit "%%" ++ b → isValidUrl url = false)
  ∧ isValidPathname (lit "/foo%3Cscript%3E") = false
  ∧ isValidPathname (lit "/normal/page.html") = true
  ∧ isValidPathname (lit "/") = true
  ∧ isValidPathname (lit "/a%25%25b") = true
  ∧ (∀ a b, isValidPathname (a ++ lit "%%" ++ b) = false)
  ∧ cleanPathname (lit "/a%25%25b") = lit "/a%%b"
  ∧ isValidPathname (cleanPathname (lit "/a%25%25b")) = false.
Proof.
  apply (validity_filter_examples (lit "https://example.com/a%25%25b")).
  vm_compute. reflexivity.
Defined.

(** The same set of URLs, listed otherwise, gives the same pathnames. *)
Lemma extractPathnames_sorted_set_witness :
  let a := lit "https://example.com/b?x=1" in
  let b := lit "https://example.com/a#top" in
  let c := lit "https://other.com/c" in
  extractPathnames [b; c; a] Demo.base = extractPathnames [a; b; a; c] Demo.base
  ∧ extractPathnames [a; b; a; c] Demo.base = [lit "/a"; lit "/b"].
Proof.
  intros a b c. split; [| by vm_compute].
  generalize a b c. clear. intros a b c.
  apply (extractPathnames_sorted_set [a; b; a; c] [b; c; a] Demo.base).
  intros u. rewrite !elem_of_cons, !elem_of_nil. tauto.
Defined.

End Examples.

Section SitemapExample.
Import ExtractUrls.
#[local] Existing Instance Demo.sitemaps.
#[local] Existing Instance Demo.codec.

Lemma sitemaps_mentioned :
  mentioned [lit "https://example.com/index.xml";
             lit "https://example.com/pages.xml"].
Proof.
  intros n url xml loc Hf Ht Hl.
  cbv [fetchText fetchBuf fetch Demo.sitemaps Demo.sitemapSite] in Hf.
  repeat match type of Hf with
         | context [bool_decide (url = ?s)] =>
             destruct (bool_decide (url = s)) eqn:E;
             [apply bool_decide_eq_true in E; subst url | clear E]
         end;
    vm_compute in Hf; try discriminate Hf;
    injection Hf as <-; vm_compute in Ht; try discriminate Ht.
  vm_compute in Hl.
  apply elem_of_cons in Hl as [-> | Hl]; [left |].
  apply elem_of_cons in Hl as [-> | Hl]; [right; left |].
  by apply elem_of_nil in Hl.
Qed.

(** The index of the small site lists itself: the walk ends all the same,
    with the two pages of its sitemap. *)
Lemma sitemaps_fetched_once_witness :
  (∃ fuel urls, collectAllUrls fuel (lit "https://example.com") = Some urls)
  ∧ collectAllUrls 3 (lit "https://example.com")
    = Some [lit "https://example.com/"; lit "https://example.com/about"].
Proof.
  split; [| by vm_compute].
  apply (proj2 (proj2 (sitemaps_fetched_once (lit "https://example.com")))
           [lit "https://example.com/index.xml";
            lit "https://example.com/pages.xml"]).
  exact sitemaps_mentioned.
Defined.

End SitemapExample.

Section OtherExamples.

(** An old URL that redirects to the expected page is not recorded. *)
Lemma checkRedirect_records_witness :
  (AuditRedirect.checkRedirect (H := Demo.moved) (lit "/old") (lit "/moved")
     (0%nat, [])).2 = [].
Proof.
  apply (proj1 (checkRedirect_records (H := Demo.moved) (lit "/old")
                  (lit "/moved") 0 [])).
  vm_compute. reflexivity.
Defined.

(** Blank lines, white space and a carriage return are dropped. *)
Example convert_example :
  let document :=
    ConvertPathnames.convertPathnamesToJson (H := Demo.path)
      (lit "mbgolf-pathnames.txt")
      (lit "  /a

 	 
/b c" ++ [13%N; 10%N]) (lit "2025-01-01T00:00:00.000Z") in
  ConvertPathnames.pathnames document = [lit "/a"; lit "/b c"]
  ∧ ConvertPathnames.totalPathnames (ConvertPathnames.meta document) = 2%nat
  ∧ ConvertPathnames.site document = lit "mbgolf"
  ∧ ConvertPathnames.base document = lit "https://www.mbgolf.com".
Proof. by vm_compute. Qed.

End OtherExamples.

(** ** crawl-urls.mjs: more on the crawl loop *)

Section CrawlExtras.
Context `{URLParser} `{Network} `{Scheduler}.
Import CrawlUrls.
Implicit Types (st : crawl) (ph : phase) (c : phase * crawl).
Implicit Types (u url : jsstring) (batch : list jsstring).

#[local] Arguments Nat.modulo : simpl never.
#[local] Arguments nth : simpl never.
#[local] Arguments take : simpl never.
#[local] Arguments drop : simpl never.

Lemma pick_middle (inflight : list (nat * jsstring)) n0 url0 :
  let l := (n0, url0) :: inflight in
  let i := (pick l mod length l)%nat in
  l = take i l ++ nth i l (n0, url0) :: drop (S i) l.
Proof.
  intros l i.
  assert (i < length l)%nat as Hi by (apply Nat.mod_upper_bound; done).
  destruct (nth_lookup_or_length l i (n0, url0)) as [Hl | Hl]; [| lia].
  by rewrite (take_drop_middle _ _ _ Hl).
Qed.

Lemma step_requests baseUrl maxPages maxDepth c :
  requests c.2 `prefix_of` requests (step baseUrl maxPages maxDepth c).2.
Proof.
  destruct c as [ph st].
  destruct ph as [| [| url batch] inflight | [| [n0 url0] inflight] |]; simpl;
    try done.
  - by destruct (_ && _).
  - unfold start. destruct (has url (visited st)); simpl; [done |].
    by apply prefix_app_r.
  - destruct (nth _ _ _) as [n url]. simpl.
    by destruct (resume_fixed baseUrl maxDepth n url st) as (_ & _ & ->).
Qed.

Lemma foundOn_mono baseUrl maxDepth st st' m m' u :
  requests st `prefix_of` requests st' → (m ≤ m')%nat →
  foundOn baseUrl maxDepth st m u → foundOn baseUrl maxDepth st' m' u.
Proof.
  intros [k Hk] Hm (n & src & html & Hlt & Hn & Hrest). exists n, src, html.
  split; [lia |]. split; [| done]. rewrite Hk. by apply lookup_app_l_Some.
Qed.

Lemma found_fold_toVisit_source maxDepth url l st u :
  u ∈ toVisit (fold_left (found maxDepth url) l st) →
  u ∈ toVisit st ∨ (u ∈ l ∧ (urlDepth url < maxDepth)).
Proof.
  intros [? | (? & _ & ?)]%found_fold_toVisit; [by left | by right].
Qed.

Lemma traced_step startUrl baseUrl maxPages maxDepth c :
  crawlInv c →
  traced startUrl baseUrl maxDepth c →
  traced startUrl baseUrl maxDepth (step baseUrl maxPages maxDepth c).
Proof.
  intros Hinv [Ht Hr].
  pose proof (step_requests baseUrl maxPages maxDepth c) as Hpre.
  pose proof (prefix_length _ _ Hpre) as Hlen.
  split.
  - intros u Hu.
    assert (u ∈ toVisit c.2 ∨ u ∈ pending c.1
            ∨ foundOn baseUrl maxDepth c.2 (length (requests c.2)) u)
      as Hold; cycle 1.
    { destruct Hold as [? | [? | Hf]];
        [ destruct (Ht u) as [? | Hf]; [tauto | by left |]
        | destruct (Ht u) as [? | Hf]; [tauto | by left |] |];
        right; by eapply foundOn_mono. }
    clear Hpre Hlen. destruct c as [ph st]. simpl in *.
    destruct ph as [| [| url batch] inflight | [| [n0 url0] inflight] |];
      simpl in *.
    + destruct (_ && _); simpl in *; [| tauto].
      destruct Hu as [[Hu _]%elem_of_deleteAll | Hu]; [tauto |].
      left. by eapply subseteq_take.
    + tauto.
    + unfold start in Hu. destruct (has url (visited st)); simpl in Hu.
      * destruct Hu as [? | ?]; [tauto |]. right; left. by right.
      * destruct Hu as [? | ?]; [tauto |]. right; left. by right.
    + tauto.
    + destruct (nth_pick inflight n0 url0) as (_ & Hnth & _ & _).
      cbv zeta in Hnth. simpl in Hnth.
      destruct (nth _ _ _) as [n url]. simpl in Hu.
      destruct Hu as [Hu | Hu]; [| by apply elem_of_nil in Hu].
      unfold resume in Hu.
      destruct (fetchPage n url) as [msg | html] eqn:Ef; simpl in Hu;
        [tauto |].
      apply found_fold_toVisit_source in Hu as [? | [Hu Hd]]; [tauto |].
      right; right. exists n, url, html.
      pose proof (inv_flying _ Hinv n url Hnth) as Hreq. simpl in Hreq.
      split_and!; try done. by eapply lookup_lt_Some.
    + tauto.
  - intros m u Hu.
    destruct (decide (m < length (requests c.2))%nat) as [Hm | Hm].
    + destruct Hpre as [k Hk]. rewrite Hk, lookup_app_l in Hu by done.
      destruct (Hr m u Hu) as [? | Hf]; [by left | right].
      eapply foundOn_mono; [by exists k | done | done].
    + clear Hlen. destruct c as [ph st]. simpl in *.
      assert (requests st !! m = None) as Hnone
        by (apply lookup_ge_None; lia).
      destruct ph as [| [| url batch] inflight | [| [n0 url0] inflight] |];
        simpl in *; try congruence.
      * destruct (_ && _); simpl in *; congruence.
      * unfold start in *. destruct (has url (visited st)); simpl in *;
          [congruence |].
        apply lookup_app_Some in Hu as [Hu | [Hge Hu]]; [congruence |].
        apply list_lookup_singleton_Some in Hu as [Hz <-].
        destruct (Ht url) as [? | Hf]; [right; left | by left | right].
        eapply foundOn_mono; [exact Hpre | | exact Hf]. lia.
      * destruct (nth _ _ _) as [n url]. simpl in Hu.
        destruct (resume_fixed baseUrl maxDepth n url st) as (_ & _ & Er).
        congruence.
Qed.

Lemma traced_steps startUrl baseUrl maxPages maxDepth k :
  traced startUrl baseUrl maxDepth
    (steps k baseUrl maxPages maxDepth (initial startUrl)).
Proof.
  assert (∀ c, crawlInv c → traced startUrl baseUrl maxDepth c →
               traced startUrl baseUrl maxDepth
                 (steps k baseUrl maxPages maxDepth c)) as Hgen.
  { induction k as [| k IH]; intros c Hinv Ht; simpl; [done |].
    apply IH; [by apply crawlInv_step | by apply traced_step]. }
  apply Hgen; [apply crawlInv_initial |]. split.
  - intros u [Hu | Hu]; simpl in Hu.
    + left. by apply list_elem_of_singleton in Hu.
    + by apply elem_of_nil in Hu.
  - intros m u Hu. simpl in Hu. by rewrite lookup_nil in Hu.
Qed.

(** X1: at every point of a crawl, a request is for the seed or for a URL
    that [extractUrls] got from the page of a request sent before it, whose
    own URL has a depth below [maxDepth]; such a URL has the hostname of the
    seed and passes [isValidUrl]. The first request is for the seed. *)
Theorem requests_traced (baseUrl : URL) (maxPages maxDepth : Z)
    (startUrl : jsstring) (k m : nat) (u : jsstring) :
  let c := steps k baseUrl maxPages maxDepth (initial startUrl) in
  requests c.2 !! m = Some u →
  (m = 0%nat → u = startUrl)
  ∧ (u = startUrl
     ∨ (foundOn baseUrl maxDepth c.2 m u
        ∧ isSameDomain u baseUrl = true ∧ isValidUrl u = true)).
Proof.
  intros c Hu.
  destruct (traced_steps startUrl baseUrl maxPages maxDepth k) as [_ Hr].
  fold c in Hr.
  destruct (Hr m u Hu) as [? | Hf]; [by split; [| left] |].
  split.
  - intros ->. destruct Hf as (n & _ & _ & Hn & _). lia.
  - right. split; [done |].
    destruct Hf as (n & src & html & _ & _ & _ & Hin & _).
    by apply extractUrls_filtered in Hin.
Qed.

Lemma fetchPage_message n url msg :
  fetchPage n url = inl msg → namesUrl (url, msg).
Proof.
  unfold fetchPage, namesUrl. simpl.
  assert (∀ m, startsWith (lit "Failed to fetch " ++ url ++ lit ": ")
                 (lit "Failed to fetch " ++ url ++ lit ": " ++ m) = true)
    as Hpre.
  { intros m.
    replace (lit "Failed to fetch " ++ url ++ lit ": " ++ m)
      with ((lit "Failed to fetch " ++ url ++ lit ": ") ++ m)
      by (by rewrite <- !app_assoc).
    apply startsWith_app. }
  cbv zeta.
  destruct (fetch n Follow url) as [m | response];
    [intros [= <-]; apply Hpre |].
  destruct (negb (ok response)); [intros [= <-]; apply Hpre |].
  destruct (negb (includes _ _)); [intros [= <-]; apply Hpre |].
  destruct (text response); [intros [= <-]; apply Hpre | done].
Qed.

Lemma errorsInv_step baseUrl maxPages maxDepth c :
  crawlInv c → errorsInv c →
  errorsInv (step baseUrl maxPages maxDepth c).
Proof.
  intros Hinv (Hnd & Hvis & Hmsg). unfold errorsInv in *.
  destruct c as [ph st]. simpl in *.
  destruct ph as [| [| url batch] inflight | [| [n0 url0] inflight] |];
    simpl in *.
  - by destruct (_ && _).
  - done.
  - destruct (inv_dequeued _ Hinv url) as [Hv _]; [left |]. simpl in Hv.
    unfold start. apply has_false in Hv as Hhas. rewrite Hhas. simpl.
    unfold add. rewrite Hhas. rewrite fmap_app. simpl.
    split_and!; [| | done].
    + rewrite app_assoc. apply NoDup_app. split_and!; [done | | apply NoDup_singleton].
      intros z Hz ->%list_elem_of_singleton. by apply Hv, Hvis.
    + rewrite app_assoc.
      intros u [Hu | ->%list_elem_of_singleton]%elem_of_app;
        apply elem_of_app; [left; by apply Hvis | right; left].
  - rewrite app_nil_r in *. done.
  - pose proof (pick_middle inflight n0 url0) as Hmid. cbv zeta in Hmid.
    simpl in Hmid.
    destruct (nth _ _ _) as [n url] eqn:En. simpl.
    set (rest := take _ _ ++ drop _ _) in *.
    assert (((n0, url0) :: inflight).*2 ≡ₚ url :: rest.*2) as Hperm.
    { rewrite Hmid at 1. unfold rest. rewrite !fmap_app. simpl.
      by rewrite Permutation_middle. }
    rewrite Hperm in Hnd.
    assert (∀ u, u ∈ (errors st).*1 ++ url :: rest.*2 → u ∈ visited st)
      as Hvis'.
    { intros u Hu. apply Hvis. by rewrite Hperm. }
    destruct (resume_fixed baseUrl maxDepth n url st) as (Ev & _ & _).
    rewrite Ev. unfold resume.
    destruct (fetchPage n url) as [msg | html] eqn:Ef; simpl.
    + rewrite fmap_app. simpl. rewrite <- app_assoc. simpl.
      split_and!; [done | done |].
      apply Forall_app. split; [done |]. constructor; [| done].
      by apply fetchPage_message in Ef.
    + destruct (found_fold_fixed maxDepth url (extractUrls html baseUrl) st)
        as (_ & -> & _).
      split_and!; [| | done].
      * rewrite <- Permutation_middle in Hnd. by apply NoDup_cons in Hnd as [_ ?].
      * intros u Hu. apply Hvis'.
        apply elem_of_app in Hu as [? | ?]; apply elem_of_app;
          [by left | right; by right].
  - done.
Qed.

Lemma errorsInv_steps baseUrl maxPages maxDepth startUrl k :
  errorsInv (steps k baseUrl maxPages maxDepth (initial startUrl)).
Proof.
  assert (∀ c, crawlInv c → errorsInv c →
               errorsInv (steps k baseUrl maxPages maxDepth c)) as Hgen.
  { induction k as [| k IH]; intros c Hinv He; simpl; [done |].
    apply IH; [by apply crawlInv_step | by apply errorsInv_step]. }
  apply Hgen; [apply crawlInv_initial |].
  split_and!; simpl; [apply NoDup_nil_2 | | done].
  intros u Hu. by apply elem_of_nil in Hu.
Qed.

(** X2: in the result of a crawl one error at most is recorded for a URL,
    every message starts with [Failed to fetch], the URL and a colon, and
    there are no more errors than pages processed: a failure never stops
    the crawl and is counted as a processed page. *)
Theorem crawl_errors (fuel : nat) (startUrl : jsstring) (maxPages maxDepth : Z)
    (result : CrawlResult) :
  crawlWebsite fuel startUrl maxPages maxDepth = Returns result →
  NoDup (resultErrors result).*1
  ∧ Forall namesUrl (resultErrors result)
  ∧ Z.of_nat (length (resultErrors result)) ≤ resultPagesProcessed result.
Proof.
  unfold crawlWebsite. destruct (parseURL startUrl) as [baseUrl |]; [| done].
  pose proof (errorsInv_steps baseUrl maxPages maxDepth startUrl fuel)
    as (Hnd & Hvis & Hmsg).
  pose proof (crawlInv_steps baseUrl maxPages maxDepth fuel
                _ (crawlInv_initial startUrl)) as Hinv.
  destruct (steps _ _ _ _ _) as [[] st]; try done.
  intros [= <-]. simpl in *. rewrite app_nil_r in *.
  split_and!; [done | done |].
  pose proof (inv_pages _ Hinv) as Hp. simpl in Hp. rewrite Hp.
  apply Nat2Z.inj_le.
  rewrite <- (length_fmap fst (errors st)).
  apply submseteq_length, NoDup_submseteq; done.
Qed.

Lemma discovered_NoDup_step baseUrl maxPages maxDepth c :
  NoDup (discoveredUrls c.2) →
  NoDup (discoveredUrls (step baseUrl maxPages maxDepth c).2).
Proof.
  destruct c as [ph st].
  destruct ph as [| [| url batch] inflight | [| [n0 url0] inflight] |]; simpl;
    try done.
  - by destruct (_ && _).
  - unfold start. by destruct (has url (visited st)).
  - destruct (nth _ _ _) as [n url]. simpl. unfold resume.
    destruct (fetchPage n url) as [msg | html]; simpl; [done |].
    generalize (extractUrls html baseUrl). intros l. revert st.
    induction l as [| f l IH]; intros st Hst; simpl; [done |].
    apply IH. simpl. by apply NoDup_add.
Qed.

(** X3: the list [urls] of the result of a crawl is strictly increasing in
    the ordinal order of strings, hence without duplicates, and
    [totalDiscovered] is its length. *)
Theorem crawl_urls_sorted (fuel : nat) (startUrl : jsstring)
    (maxPages maxDepth : Z) (result : CrawlResult) :
  crawlWebsite fuel startUrl maxPages maxDepth = Returns result →
  StronglySorted JS.lt (urls result)
  ∧ NoDup (urls result)
  ∧ totalDiscovered result = length (urls result).
Proof.
  unfold crawlWebsite. destruct (parseURL startUrl) as [baseUrl |]; [| done].
  assert (NoDup (discoveredUrls
                   (steps fuel baseUrl maxPages maxDepth (initial startUrl)).2))
    as Hnd.
  { generalize (initial startUrl) (NoDup_nil_2 : NoDup (discoveredUrls (initial startUrl).2)).
    induction fuel as [| k IH]; intros c Hc; simpl; [done |].
    by apply IH, discovered_NoDup_step. }
  destruct (steps _ _ _ _ _) as [[] st]; try done.
  intros [= <-]. simpl in *.
  split_and!.
  - by apply sort_strict.
  - by rewrite sort_Permutation.
  - by rewrite sort_length.
Qed.

Lemma step_initial baseUrl maxPages maxDepth startUrl :
  step baseUrl maxPages maxDepth (initial startUrl)
  = if 0 <? maxPages
    then (Starting [startUrl] [], MkCrawl [] [] [] [] 0 [])
    else (Returned, MkCrawl [startUrl] [] [] [] 0 []).
Proof.
  unfold initial, step. cbn [toVisit pagesProcessed length Nat.ltb Nat.leb andb visited discoveredUrls errors requests].
  destruct (0 <? maxPages); [| done].
  change (take 10 [startUrl]) with [startUrl].
  unfold deleteAll, delete. cbn [fold_left List.filter].
  by rewrite bool_decide_eq_true_2.
Qed.




(** X5: when the request for the seed fails, or its page holds no URL that
    [extractUrls] keeps, the crawl ends after the seed: one page processed,
    no URL discovered, and the error of the seed, if any, as only error. *)
Theorem seed_without_links (fuel : nat) (startUrl : jsstring) (baseUrl : URL)
    (maxPages maxDepth : Z) :
  parseURL startUrl = Some baseUrl →
  0 < maxPages →
  match fetchPage 0 startUrl with
  | inl _ => True
  | inr html => extractUrls html baseUrl = []
  end →
  crawlWebsite (6 + fuel) startUrl maxPages maxDepth
  = Returns (MkResult []
               match fetchPage 0 startUrl with
               | inl message => [(startUrl, message)]
               | inr _ => []
               end 1 0).
Proof.
  intros Hb Hpos Hseed.
  apply (crawlWebsite_fuel startUrl maxPages maxDepth 6); [| lia].
  unfold crawlWebsite. rewrite Hb.
  change (steps 6 baseUrl maxPages maxDepth (initial startUrl))
    with (steps 5 baseUrl maxPages maxDepth
            (step baseUrl maxPages maxDepth (initial startUrl))).
  rewrite step_initial, (proj2 (Z.ltb_lt 0 maxPages)) by done.
  cbn [steps step]. unfold start, add, has. cbn [visited].
  rewrite bool_decide_eq_false_2 by apply not_elem_of_nil.
  cbn [step app pagesProcessed toVisit discoveredUrls errors visited requests
       length].
  rewrite Nat.mod_1_r.
  change (nth 0 [(0%nat, startUrl)] (0%nat, startUrl)) with (0%nat, startUrl).
  change (take 0 [(0%nat, startUrl)] ++ drop 1 [(0%nat, startUrl)])
    with (@nil (nat * list N)).
  cbn [step]. unfold resume.
  destruct (fetchPage 0 startUrl) as [message | html]; simpl.
  - done.
  - rewrite Hseed. simpl. done.
Qed.

End CrawlExtras.

(** ** crawl-urls.mjs: more on URLs and pathnames *)

Section PathnameExtras.
Context `{URLParser}.
Import CrawlUrls.

Lemma includes_singleton c (s : jsstring) : includes [c] s = true ↔ c ∈ s.
Proof.
  induction s as [| a s IH]; simpl.
  - split; [done | by intros ?%elem_of_nil].
  - rewrite orb_true_iff, IH, elem_of_cons, andb_true_r, N.eqb_eq. done.
Qed.

Lemma first_split_free c (s : jsstring) : c ∉ first (split c s).
Proof.
  pose proof (split_free c s) as Hf. pose proof (split_nonempty c s) as Hn.
  destruct (split c s) as [| w ws]; [done |]. by apply Forall_cons in Hf as [? _].
Qed.

Lemma first_split_subset c (s : jsstring) x :
  x ∈ first (split c s) → x ∈ s.
Proof.
  induction s as [| a s IH]; simpl; [done |].
  destruct (N.eqb a c); simpl; [by intros ?%elem_of_nil |].
  pose proof (split_nonempty c s) as Hn.
  destruct (split c s) as [| w ws]; [done |]. simpl in *.
  intros [-> | Hx]%elem_of_cons; [left | right; by apply IH].
Qed.

Lemma first_split_fresh c (s : jsstring) : c ∉ s → first (split c s) = s.
Proof. intros Hc. by rewrite split_free_line. Qed.

(** [decodeURIComponent] leaves a string without [%] as it is. *)
Lemma decodeURIComponent_plain (s : jsstring) :
  37%N ∉ s → URI.decodeURIComponent s = Some s.
Proof.
  unfold URI.decodeURIComponent.
  induction s as [| a s IH]; simpl; [done |].
  intros [Ha Hs]%not_elem_of_cons.
  rewrite (proj2 (N.eqb_neq a 37)) by congruence. simpl.
  by rewrite IH.
Qed.

Lemma cleanPathname_marks (pathname : jsstring) :
  (63%N ∉ cleanPathname pathname) ∧ (35%N ∉ cleanPathname pathname).
Proof.
  unfold cleanPathname. cbv zeta.
  set (d := default pathname (URI.decodeURIComponent pathname)).
  set (q := first (split 35 (first (split 63 d)))).
  assert (35%N ∉ q) as H35 by apply first_split_free.
  assert (63%N ∉ q) as H63.
  { intros Hq%first_split_subset. by apply first_split_free in Hq. }
  change (lit "/") with [47%N].
  split.
  - destruct (negb _); [| done].
    apply not_elem_of_cons. split; [done | done].
  - destruct (negb _); [| done].
    apply not_elem_of_cons. split; [done | done].
Qed.

(** X6: [cleanPathname] returns a string that starts with a slash and holds
    neither [?] nor [#]; and it returns its argument when that starts with a
    slash and holds none of [%], [?] and [#]. *)
Theorem cleanPathname_strips (pathname : jsstring) :
  startsWith (lit "/") (cleanPathname pathname) = true
  ∧ (63%N ∉ cleanPathname pathname)
  ∧ (35%N ∉ cleanPathname pathname)
  ∧ (startsWith (lit "/") pathname = true →
     37%N ∉ pathname → 63%N ∉ pathname → 35%N ∉ pathname →
     cleanPathname pathname = pathname).
Proof.
  split; [apply cleanPathname_root |].
  assert (startsWith (lit "/") pathname = true →
          37%N ∉ pathname → 63%N ∉ pathname → 35%N ∉ pathname →
          cleanPathname pathname = pathname) as Hid.
  { intros Hs Hp Hq Hh. unfold cleanPathname.
    rewrite decodeURIComponent_plain by done. cbv zeta.
    change (default pathname (Some pathname)) with pathname.
    rewrite (first_split_fresh 63 pathname) by done.
    rewrite (first_split_fresh 35 pathname) by done.
    by rewrite Hs. }
  destruct (cleanPathname_marks pathname) as [H63 H35].
  split_and!; done.
Qed.

Lemma isValidPathname_true (p : jsstring) :
  isValidPathname p = true →
  (length p ≤ 200)%nat ∧ (60%N ∉ p) ∧ (62%N ∉ p).
Proof.
  unfold isValidPathname.
  destruct (bool_decide (p = [])) eqn:E0.
  { apply bool_decide_eq_true in E0 as ->. intros _. simpl.
    split_and!; [lia | apply not_elem_of_nil | apply not_elem_of_nil]. }
  destruct (bool_decide (p = lit "/")) eqn:E1.
  { apply bool_decide_eq_true in E1 as ->. intros _.
    change (lit "/") with [47%N].
    split_and!; [simpl; lia | |]; by intros ?%list_elem_of_singleton. }
  cbn [orb].
  repeat match goal with
         | |- (if ?b then _ else _) = true → _ => destruct b eqn:?; [done |]
         end.
  intros _.
  match goal with
  | E : (includes (lit "<") p || _) = false |- _ => rename E into E2
  end.
  match goal with
  | E : (200 <? length p)%nat = false |- _ => rename E into E3
  end.
  apply orb_false_iff in E2 as [E2 E2'].
  change (lit "<") with [60%N] in E2. change (lit ">") with [62%N] in E2'.
  apply Nat.ltb_ge in E3.
  split_and!; [done | |]; rewrite <- includes_singleton; congruence.
Qed.

(** X7: every pathname that [extractPathnames] returns has 200 code units
    at most, holds none of [<], [>], [?] and [#], and has no two [%] in a
    row. *)
Theorem extractPathnames_clean (urls : list jsstring) (baseUrl : URL) :
  Forall (λ p, (length p ≤ 200)%nat
               ∧ (60%N ∉ p) ∧ (62%N ∉ p) ∧ (63%N ∉ p) ∧ (35%N ∉ p)
               ∧ ∀ a b, p ≠ a ++ lit "%%" ++ b)
    (extractPathnames urls baseUrl).
Proof.
  apply Forall_forall. intros p [Hv (url & _ & _ & Hp)]%elem_of_extractPathnames.
  destruct (isValidPathname_true p Hv) as (Hlen & H60 & H62).
  split_and!; try done.
  - rewrite Hp. unfold pathnameOf. destruct (parseURL url).
    + apply cleanPathname_marks.
    + change (lit "/") with [47%N]. by intros ?%list_elem_of_singleton.
  - rewrite Hp. unfold pathnameOf. destruct (parseURL url).
    + apply cleanPathname_marks.
    + change (lit "/") with [47%N]. by intros ?%list_elem_of_singleton.
  - intros a b ->. pose proof (isValidPathname_percents a b) as Hf.
    change (lit "%%" ++ b) with (37%N :: 37%N :: b) in Hv. congruence.
Qed.

(** X8: [isValidPathname] is the stricter filter: a URL whose pathname it
    accepts is accepted by [isValidUrl]. *)
Theorem isValidPathname_stricter (url : jsstring) (urlObj : URL) :
  parseURL url = Some urlObj →
  isValidPathname (pathname urlObj) = true →
  isValidUrl url = true.
Proof.
  intros Hp. unfold isValidUrl, isValidPathname. rewrite Hp.
  generalize (pathname urlObj). intros p.
  destruct (bool_decide (p = [])) eqn:E0.
  { apply bool_decide_eq_true in E0 as ->. intros _. by vm_compute. }
  destruct (bool_decide (p = lit "/")) eqn:E1.
  { apply bool_decide_eq_true in E1 as ->. intros _. by vm_compute. }
  cbn [orb].
  repeat match goal with
         | |- (if ?b then _ else _) = true → _ => destruct b; [done |]
         end.
  done.
Qed.

Lemma normalizeUrl_normalized raw baseUrl u :
  normalizeUrl raw baseUrl = Some u → normalized u.
Proof.
  unfold normalizeUrl, normalized.
  destruct (bool_decide (raw = [])); [done |].
  destruct (_ || _).
  { destruct (parseURL raw) as [o |] eqn:E; [| done]. intros [= <-].
    exists raw, o. eauto. }
  destruct (startsWith (lit "//") raw).
  { destruct (parseURL _) as [o |] eqn:E; [| done]. intros [= <-].
    eexists _, o. eauto. }
  destruct (startsWith (lit "/") raw).
  { destruct (parseURLWithBase _ _) as [o |] eqn:E; [| done]. intros [= <-].
    eexists _, o. eauto. }
  destruct (parseURLWithBase _ _) as [o |] eqn:E; [| done]. intros [= <-].
  eexists _, o. eauto.
Qed.

Lemma addMatches_set r html baseUrl urls :
  NoDup urls →
  (∀ u, u ∈ urls → u ≠ [] ∧ normalized u) →
  NoDup (addMatches r html baseUrl urls)
  ∧ ∀ u, u ∈ addMatches r html baseUrl urls → u ≠ [] ∧ normalized u.
Proof.
  unfold addMatches. revert urls.
  induction (Regex.matchAll false r html) as [| m ms IH]; intros urls Hnd Hn;
    simpl; [done |].
  apply IH.
  - destruct (normalizeUrl _ _); [| done].
    destruct (_ && _); [by apply NoDup_add | done].
  - destruct (normalizeUrl _ _) as [url |] eqn:En; [| done].
    destruct (negb (bool_decide (url = [])) && _ && _) eqn:E; [| done].
    intros u [-> | Hu]%elem_of_add; [| by apply Hn].
    apply andb_true_iff in E as [[E _]%andb_true_iff _].
    apply negb_true_iff, bool_decide_eq_false in E.
    split; [done | by eapply normalizeUrl_normalized].
Qed.

(** X9: [extractUrls] returns a list without duplicates of non-empty
    strings, each the [href] of a URL that the parser has built and that it
    parses again into a URL with the hostname of [baseUrl] and a pathname of
    200 code units at most. *)
Theorem extractUrls_set (html : jsstring) (baseUrl : URL) :
  NoDup (extractUrls html baseUrl)
  ∧ Forall (λ u, u ≠ [] ∧ normalized u
                 ∧ ∃ o, parseURL u = Some o
                        ∧ hostname o = hostname baseUrl
                        ∧ (length (pathname o) ≤ 200)%nat)
      (extractUrls html baseUrl).
Proof.
  assert (NoDup (extractUrls html baseUrl)
          ∧ ∀ u, u ∈ extractUrls html baseUrl → u ≠ [] ∧ normalized u)
    as [Hnd Hn].
  { unfold extractUrls.
    repeat (apply addMatches_set; try apply conj); try apply NoDup_nil_2.
    all: try (intros u Hu; by apply elem_of_nil in Hu).
    all: apply addMatches_set; try apply NoDup_nil_2. }
  split; [done |].
  apply Forall_forall. intros u Hu.
  destruct (Hn u Hu) as [Hne Hnorm]. split_and!; [done | done |].
  apply extractUrls_filtered in Hu as [Hs Hv].
  unfold isSameDomain, isValidUrl in *.
  destruct (parseURL u) as [o |]; [| done].
  exists o. split_and!; [done | by apply bool_decide_eq_true in Hs |].
  repeat match type of Hv with
         | (if ?b then _ else _) = true => destruct b eqn:?; [done |]
         end.
  by apply Nat.ltb_ge.
Qed.

End PathnameExtras.


(** ** audit-redirect.js: the whole file of redirects *)

Section RedirectExtras.
Context `{Network}.
Import AuditRedirect.

Lemma checkRedirect_one fromUrl expectedToUrl n failed :
  let after := checkRedirect fromUrl expectedToUrl (n, failed) in
  (n < after.1 ≤ n + 2)%nat
  ∧ (after.2 = failed
     ∨ ∃ f, after.2 = failed ++ [f] ∧ rowOf f = (fromUrl, expectedToUrl)).
Proof.
  unfold checkRedirect.
  destruct (fetch n Manual _) as [msg | response]; simpl;
    [split; [lia | right; by eexists] |].
  destruct (isRedirect (status response)).
  - destruct (fetch (S n) Follow _) as [msg | followResponse]; simpl;
      [split; [lia | right; by eexists] |].
    destruct (_ || _); simpl; (split; [lia |]); [by left | right; by eexists].
  - destruct (N.eqb _ 200); simpl; (split; [lia |]);
      [by left | right; by eexists].
Qed.

Lemma auditRedirects_from rows n failed :
  let after :=
    fold_left (λ st '(from, to), checkRedirect from to st) rows (n, failed) in
  (n + length rows ≤ after.1 ≤ n + 2 * length rows)%nat
  ∧ ∃ more, after.2 = failed ++ more ∧ rowOf <$> more `sublist_of` rows.
Proof.
  revert n failed. induction rows as [| [fromUrl to] rows IH]; intros n failed.
  - simpl. split; [lia |]. exists []. by rewrite app_nil_r.
  - cbn [fold_left].
    pose proof (checkRedirect_one fromUrl to n failed) as [Hn Hf].
    destruct (checkRedirect fromUrl to (n, failed)) as [n' failed'].
    simpl in Hn, Hf.
    destruct (IH n' failed') as (Hn' & more & Hmore & Hsub).
    split; [simpl; lia |].
    destruct Hf as [-> | (f & -> & Hrow)].
    + exists more. split; [done |]. by apply sublist_cons.
    + exists (f :: more). rewrite Hmore, <- app_assoc. split; [done |].
      rewrite fmap_cons, Hrow. by apply sublist_skip.
Qed.

(** X10: [auditRedirects] sends one or two requests for each row of the CSV
    file, and the rows that the failures report, in the order of
    [failedRedirects], form a sublist of the rows of the file: one failure
    at most for each row, in the order of the rows. *)
Theorem auditRedirects_rows (redirects : list (jsstring * jsstring)) :
  let after := auditRedirects redirects in
  (length redirects ≤ after.1 ≤ 2 * length redirects)%nat
  ∧ rowOf <$> after.2 `sublist_of` redirects
  ∧ (length after.2 ≤ length redirects)%nat.
Proof.
  intros after. unfold after, auditRedirects.
  destruct (auditRedirects_from redirects 0 []) as (Hn & more & Hm & Hsub).
  simpl in Hn, Hm. rewrite Hm. split; [lia | split; [exact Hsub |]].
  apply sublist_length in Hsub. by rewrite length_fmap in Hsub.
Qed.

End RedirectExtras.

(** ** convert-pathnames-to-json.mjs: file names, and the file of the crawler *)

Section ConvertExtras.
Context `{ConvertPathnames.Path} `{URLParser}.
Import ConvertPathnames.
Implicit Types (p r s a b : jsstring).

Lemma replace_absent p r s : includes p s = false → replace p r s = s.
Proof.
  induction s as [| c s IH]; simpl.
  - intros [-> _]%orb_false_iff. done.
  - intros [-> Hs]%orb_false_iff. by rewrite IH.
Qed.

Lemma startsWith_app_long p s t :
  (length p ≤ length s)%nat → startsWith p (s ++ t) = startsWith p s.
Proof.
  revert s. induction p as [| c p IH]; intros s Hl; [done |].
  destruct s as [| d s]; simpl in *; [lia |].
  rewrite IH by lia. done.
Qed.

(** [replace] touches the first occurrence of the pattern only. *)
Lemma replace_first p r a b :
  p ≠ [] →
  includes p (a ++ removelast p) = false →
  replace p r (a ++ p ++ b) = a ++ r ++ b.
Proof.
  intros Hp. induction a as [| x a IH]; intros Hinc.
  - simpl. destruct p as [| c p]; [done |]. simpl.
    rewrite N.eqb_refl, startsWith_app. simpl.
    by rewrite drop_app_length.
  - assert (startsWith p ((x :: a) ++ p ++ b) = false) as Hstart.
    { rewrite (app_removelast_last 0%N Hp) at 2.
      rewrite <- (app_assoc (removelast p)), (app_assoc (x :: a)).
      rewrite startsWith_app_long.
      - simpl in Hinc. by apply orb_false_iff in Hinc as [? _].
      - rewrite (app_removelast_last 0%N Hp) at 1.
        rewrite !length_app. simpl. lia. }
    simpl in Hinc. apply orb_false_iff in Hinc as [_ Hinc].
    change ((x :: a) ++ p ++ b) with (x :: a ++ p ++ b) in *.
    cbn [replace]. rewrite Hstart. simpl. by rewrite IH.
Qed.

(** X11: when no output file is given, an input file whose name does not
    hold [.txt] is its own output file, so that the converter overwrites it;
    otherwise the first [.txt] of the name, and no other, becomes [.json];
    an output file that is given, and not empty, is used as it is. *)
Theorem outputFile_default (inputFile : jsstring) :
  (includes (lit ".txt") inputFile = false →
   outputFileOf None inputFile = inputFile)
  ∧ (∀ stem rest,
       inputFile = stem ++ lit ".txt" ++ rest →
       includes (lit ".txt") (stem ++ lit ".tx") = false →
       outputFileOf None inputFile = stem ++ lit ".json" ++ rest)
  ∧ (∀ outputFile,
       outputFile ≠ [] → outputFileOf (Some outputFile) inputFile = outputFile).
Proof.
  unfold outputFileOf, orElse. split_and!.
  - intros Hi. by apply replace_absent.
  - intros stem rest -> Hi. by apply replace_first.
  - intros out Hout. by rewrite bool_decide_eq_false_2.
Qed.

Lemma head_rev s : head (rev s) = last s.
Proof.
  rewrite <- (rev_involutive s) at 2. by rewrite last_rev.
Qed.

Lemma trimStart_id s :
  (∀ c, head s = Some c → isSpace c = false) → trimStart s = s.
Proof. destruct s as [| c s]; [done |]. intros Hc. simpl. by rewrite Hc. Qed.

Lemma trim_id s :
  (∀ c, head s = Some c → isSpace c = false) →
  (∀ c, last s = Some c → isSpace c = false) →
  trim s = s.
Proof.
  intros Hh Hl. unfold trim, trimEnd. rewrite (trimStart_id s) by done.
  rewrite trimStart_id; [apply rev_involutive |].
  intros c. rewrite head_rev. apply Hl.
Qed.

(** X12: the converter reads back the file that the crawler writes: from the
    pathnames of [extractPathnames] joined by line feeds it makes these very
    pathnames, provided that none of them holds a line feed or ends with
    white space (as the decoding of [%0A] or [%20] can make them). *)
Theorem convert_reads_crawl (urls : list jsstring) (baseUrl : URL)
    (inputFile now : jsstring) :
  let crawled := CrawlUrls.extractPathnames urls baseUrl in
  Forall (λ p, (10%N ∉ p) ∧ ∀ c, last p = Some c → isSpace c = false) crawled →
  pathnames (convertPathnamesToJson inputFile (join (lit "
") crawled) now)
  = crawled.
Proof.
  intros crawled Hclean.
  assert (Forall (λ p, startsWith (lit "/") p = true) crawled) as Hroot.
  { apply Forall_forall.
    intros p [_ (url & _ & _ & ->)]%elem_of_extractPathnames.
    unfold pathnameOf. destruct (parseURL url); [| done].
    apply cleanPathname_root. }
  generalize dependent crawled. intros ps Hclean Hroot.
  unfold convertPathnamesToJson. simpl. change (lit "
") with [10%N].
  destruct ps as [| p0 ps0] eqn:Eps; [done |]. rewrite <- Eps in *.
  rewrite split_join; [| by rewrite Eps | by eapply Forall_impl; [exact Hclean | intros ? [? _]]].
  clear Eps p0 ps0. induction ps as [| p ps IH]; [done |].
  apply Forall_cons in Hclean as [[_ Hlast] Hclean].
  apply Forall_cons in Hroot as [Hp Hroot].
  simpl. rewrite trim_id; [| | done].
  - destruct p as [| c p]; [done |]. simpl. f_equal. by apply IH.
  - destruct p as [| c p]; [done |]. intros c' [= <-].
    change (lit "/") with [47%N] in Hp. cbn [startsWith] in Hp.
    apply andb_true_iff in Hp as [<-%N.eqb_eq _]. done.
Qed.

End ConvertExtras.

(** ** The sitemap harvester: what it collects and what it writes *)

Section HarvesterExtras.
Context `{URLParser} `{Network} `{ExtractUrls.Codec}
  `{ExtractUrls.FileSystem}.
Import ExtractUrls.
Implicit Types (w : walk) (u : jsstring).

Lemma turn_failed sitemapUrl rest w msg :
  sitemapUrl ≠ [] →
  sitemapUrl ∉ seenSitemaps w →
  fetchText (length (requests w)) sitemapUrl = inl msg →
  turn sitemapUrl rest w
  = MkWalk rest (seenSitemaps w ++ [sitemapUrl]) (urls w)
      (S (processedCount w)) (requests w ++ [sitemapUrl]).
Proof.
  intros Hne Hseen%has_false Hf. unfold turn, add.
  rewrite bool_decide_eq_false_2, Hseen, Hf by done. done.
Qed.

(** X13: when robots.txt and the three usual sitemaps cannot be fetched,
    [collectAllUrls] asks for these four documents, in this order and once
    each, and returns no URL after three turns of its loop; [main] then
    prints that no URL was found and writes no file. *)
Theorem no_sitemap_no_urls (baseUrl : jsstring) (fuel : nat)
    (answers : list jsstring) :
  (∀ i path, fallbackPaths !! i = Some path →
             ∃ msg, fetchText i (baseUrl ++ path) = inl msg) →
  (∃ w, loop (3 + fuel) (start baseUrl) = Some w
        ∧ requests w = (λ path, baseUrl ++ path) <$> fallbackPaths
        ∧ urls w = [])
  ∧ collectAllUrls (3 + fuel) baseUrl = Some []
  ∧ (askWebsiteUrl answers = Some baseUrl →
     main (3 + fuel) answers = Some [Log noUrlsMessage; Close; Close]).
Proof.
  intros Hfail.
  destruct (Hfail 0%nat _ eq_refl) as [m0 Hf0].
  destruct (Hfail 1%nat _ eq_refl) as [m1 Hf1].
  destruct (Hfail 2%nat _ eq_refl) as [m2 Hf2].
  destruct (Hfail 3%nat _ eq_refl) as [m3 Hf3].
  assert (∀ a : jsstring, a ≠ [] → baseUrl ++ a ≠ []) as Hne.
  { intros a Ha [_ ?]%app_eq_nil. done. }
  assert (start baseUrl
          = MkWalk [baseUrl ++ lit "/sitemap.xml";
                    baseUrl ++ lit "/sitemap_index.xml";
                    baseUrl ++ lit "/sitemap-index.xml"] [] [] 0
              [baseUrl ++ lit "/robots.txt"]) as Hstart.
  { unfold start, getRobotsSitemaps. by rewrite Hf0. }
  assert (loop (3 + fuel) (start baseUrl)
          = Some (MkWalk [] [baseUrl ++ lit "/sitemap.xml";
                             baseUrl ++ lit "/sitemap_index.xml";
                             baseUrl ++ lit "/sitemap-index.xml"] [] 3
                    ((λ path, baseUrl ++ path) <$> fallbackPaths))) as Hloop.
  { rewrite Hstart. change (3 + fuel)%nat with (S (S (S fuel))).
    cbn [loop queue].
    erewrite turn_failed; [| by apply Hne | apply not_elem_of_nil | exact Hf1].
    cbn [loop queue seenSitemaps urls processedCount requests app].
    erewrite turn_failed; [| by apply Hne | | exact Hf2].
    2: { intros E%list_elem_of_singleton%app_inv_head.
         vm_compute in E. discriminate. }
    cbn [loop queue seenSitemaps urls processedCount requests app].
    erewrite turn_failed; [| by apply Hne | | exact Hf3].
    2: { intros [E%app_inv_head | E%list_elem_of_singleton%app_inv_head]
           %elem_of_cons; vm_compute in E; discriminate. }
    cbn [queue seenSitemaps urls processedCount requests app].
    by destruct fuel. }
  assert (collectAllUrls (3 + fuel) baseUrl = Some []) as Hcollect.
  { unfold collectAllUrls. by rewrite Hloop. }
  split_and!; [by eexists | done |].
  intros Hask. unfold main. rewrite Hask. cbn [mbind option_bind].
  by rewrite Hcollect.
Qed.

Lemma turn_requests sitemapUrl rest w :
  requests w `prefix_of` requests (turn sitemapUrl rest w).
Proof.
  unfold turn. destruct (_ || _); simpl; [done |].
  destruct (fetchText _ _) as [msg | xml]; simpl; [by apply prefix_app_r |].
  destruct (Regex.test _ _ _); simpl; by apply prefix_app_r.
Qed.

Lemma harvested_mono w w' u :
  requests w `prefix_of` requests w' → harvested w u → harvested w' u.
Proof.
  intros [k Hk] (n & sitemapUrl & xml & Hn & Hne & Hreq & Hrest).
  exists n, sitemapUrl, xml. do 2 (split; [done |]). split; [| done].
  rewrite Hk. by apply lookup_app_l_Some.
Qed.

Lemma harvested_turn sitemapUrl rest w :
  (0 < length (requests w))%nat →
  NoDup (urls w) ∧ Forall (harvested w) (urls w) →
  (0 < length (requests (turn sitemapUrl rest w)))%nat
  ∧ NoDup (urls (turn sitemapUrl rest w))
  ∧ Forall (harvested (turn sitemapUrl rest w))
      (urls (turn sitemapUrl rest w)).
Proof.
  intros Hr [Hnd Hh].
  pose proof (turn_requests sitemapUrl rest w) as Hpre.
  split; [apply prefix_length in Hpre; lia |].
  assert (Forall (harvested (turn sitemapUrl rest w)) (urls w)) as Hold.
  { eapply Forall_impl; [exact Hh |]. intros u. by apply harvested_mono. }
  clear Hh. revert Hpre Hold. unfold turn.
  destruct (bool_decide (sitemapUrl = [])) eqn:Ee; simpl; [done |].
  apply bool_decide_eq_false in Ee.
  destruct (has sitemapUrl (seenSitemaps w)); simpl; [done |].
  destruct (fetchText _ _) as [msg | xml] eqn:Ef; simpl; [done |].
  destruct (Regex.test _ _ _) eqn:Et; simpl; [done |].
  intros Hpre Hold. split; [by apply NoDup_fold_add |].
  apply Forall_forall. intros u [Hu | Hu]%elem_of_fold_add.
  - exists (length (requests w)), sitemapUrl, xml.
    split_and!; try done. by apply list_lookup_middle.
  - rewrite Forall_forall in Hold. by apply Hold.
Qed.

Lemma harvested_loop fuel w w' :
  loop fuel w = Some w' →
  (0 < length (requests w))%nat →
  NoDup (urls w) ∧ Forall (harvested w) (urls w) →
  NoDup (urls w') ∧ Forall (harvested w') (urls w').
Proof.
  revert w. induction fuel as [| fuel IH]; intros w; simpl.
  - destruct (queue w); [by intros [= ->] | done].
  - destruct (queue w) as [| s rest]; [by intros [= ->] |].
    intros Hl Hr Hu.
    destruct (harvested_turn s rest w Hr Hu) as (? & ? & ?). by eapply IH.
Qed.

(** X14: the URLs that [collectAllUrls] returns are in strictly increasing
    order of code units, so without duplicates, and each of them was read,
    trimmed, between [<loc>] and [</loc>] of a document that is no sitemap
    index and that a request of this run, sent after the one for
    robots.txt, has fetched: a sitemap index gives its entries to the queue
    only, and robots.txt gives no URL. *)
Theorem collectAllUrls_harvested (fuel : nat) (baseUrl : jsstring)
    (found : list jsstring) :
  collectAllUrls fuel baseUrl = Some found →
  ∃ w, loop fuel (start baseUrl) = Some w
       ∧ found = sort (urls w)
       ∧ StronglySorted JS.lt found
       ∧ Forall (harvested w) found.
Proof.
  unfold collectAllUrls.
  destruct (loop fuel (start baseUrl)) as [w |] eqn:El; [| done].
  intros [= <-]. exists w.
  destruct (harvested_loop _ _ _ El) as [Hnd Hh];
    [simpl; lia | split; [apply NoDup_nil_2 | apply Forall_nil_2] |].
  split_and!; [done | done | by apply sort_strict |].
  apply Forall_forall. intros u Hu. rewrite elem_of_sort in Hu.
  rewrite Forall_forall in Hh. by apply Hh.
Qed.

Lemma elem_of_list_filter (f : jsstring → bool) (l : list jsstring) u :
  u ∈ List.filter f l ↔ u ∈ l ∧ f u = true.
Proof. rewrite !list_elem_of_In. apply List.filter_In. Qed.

(** X15: the pathnames of the harvester are in strictly increasing order
    of code units, so without duplicates; they are the pathnames, as the
    parser gives them and [/] for an empty one, of the URLs of the list
    whose host, port included, is the host of the site: nothing else is
    filtered out and nothing is decoded or cut. *)
Theorem harvester_pathnames (found : list jsstring) (baseUrl : jsstring)
    (base : URL) :
  parseURL baseUrl = Some base →
  ∃ pathnames,
    extractPathnames found baseUrl = Some pathnames
    ∧ StronglySorted JS.lt pathnames
    ∧ ∀ p, p ∈ pathnames ↔
           ∃ url urlObj,
             url ∈ found ∧ parseURL url = Some urlObj
             ∧ host urlObj = host base
             ∧ p = (if bool_decide (pathname urlObj = []) then lit "/"
                    else pathname urlObj).
Proof.
  intros Hb. unfold extractPathnames. rewrite Hb.
  eexists. split; [done |]. split; [apply sort_strict, NoDup_setOf |].
  intros p. rewrite elem_of_sort, elem_of_setOf, list_elem_of_In, in_map_iff.
  split.
  - intros (url & <- & Hu%list_elem_of_In%elem_of_list_filter).
    destruct Hu as [Hu Hhost].
    destruct (parseURL url) as [urlObj |] eqn:Ep; [| done].
    apply bool_decide_eq_true in Hhost. by exists url, urlObj.
  - intros (url & urlObj & Hu & Hp & Hhost & ->).
    exists url. rewrite Hp. split; [done |].
    apply list_elem_of_In, elem_of_list_filter. split; [done |].
    rewrite Hp. by apply bool_decide_eq_true.
Qed.

Lemma askWebsiteUrl_answer answers websiteUrl :
  askWebsiteUrl answers = Some websiteUrl →
  ∃ input, input ∈ answers ∧ normalizeUrl input = Some websiteUrl.
Proof.
  induction answers as [| input answers IH]; simpl; [done |].
  destruct (normalizeUrl input) as [u |] eqn:E.
  - intros [= <-]. exists input. split; [left | done].
  - intros (i & Hi & Hn)%IH. exists i. split; [by right | done].
Qed.

Lemma normalizeUrl_parses input websiteUrl :
  normalizeUrl input = Some websiteUrl → is_Some (parseURL websiteUrl).
Proof.
  unfold normalizeUrl. destruct (bool_decide _); [done |].
  destruct (parseURL _) eqn:E; [| done]. intros [= <-]. eexists. exact E.
Qed.

Lemma preview_logs index pathnames e :
  e ∈ preview index pathnames → ∃ line, e = Log line.
Proof.
  revert index. induction pathnames as [| p ps IH]; intros index; simpl.
  - by intros ?%elem_of_nil.
  - intros [-> | He]%elem_of_cons; [by eexists | by eapply IH].
Qed.

(** X16: once [collectAllUrls] has returned, [main] of the harvester
    reaches its [catch] only when [fs.writeFile] is rejected: the URL that
    [normalizeUrl] accepted is one that [extractPathnames] can parse. It
    calls [fs.writeFile] for url.txt, first of all it does and once,
    exactly when the sitemaps gave a URL, even when none of these URLs is of
    the site and the data are empty; when the write is rejected it prints
    the message of the error and nothing else; and it closes the input at
    the end. *)
Theorem harvester_main (fuel : nat) (answers : list jsstring)
    (websiteUrl : jsstring) (found : list jsstring) :
  askWebsiteUrl answers = Some websiteUrl →
  collectAllUrls fuel websiteUrl = Some found →
  ∃ effects,
    main fuel answers = Some effects
    ∧ last effects = Some Close
    ∧ (found = [] →
       (∀ path data, WriteFile path data ∉ effects)
       ∧ ∀ line, Error line ∉ effects)
    ∧ (found ≠ [] →
       ∃ pathnames rest,
         extractPathnames found websiteUrl = Some pathnames
         ∧ effects
           = WriteFile (lit "url.txt") (join (lit "
") pathnames) :: rest
         ∧ (∀ path data, WriteFile path data ∉ rest)
         ∧ match writeFile (lit "url.txt") (join (lit "
") pathnames) with
           | Some message =>
               rest = [Error (lit "❌ Error: " ++ message); Close]
           | None => ∀ line, Error line ∉ rest
           end).
Proof.
  intros Hask Hcollect. unfold main. rewrite Hask. cbn [mbind option_bind].
  rewrite Hcollect. cbn [mbind option_bind]. eexists. split; [done |].
  apply askWebsiteUrl_answer in Hask as (input & _ & Hn).
  apply normalizeUrl_parses in Hn as [base Hb].
  assert (∃ pathnames, extractPathnames found websiteUrl = Some pathnames)
    as [pathnames Hp].
  { unfold extractPathnames. rewrite Hb. by eexists. }
  unfold report. rewrite Hp.
  destruct found as [| u found]; simpl.
  - split_and!; [done | | done].
    intros _. split.
    + intros path data Hin. by repeat apply elem_of_cons in Hin as [? | Hin];
        [.. | apply elem_of_nil in Hin].
    + intros line Hin. by repeat apply elem_of_cons in Hin as [? | Hin];
        [.. | apply elem_of_nil in Hin].
  - destruct (writeFile _ _) as [message |] eqn:Ew.
    + split_and!; [done | done |].
      intros _. exists pathnames. eexists. split; [done |].
      split; [done |]. rewrite Ew. split; [| done].
      intros path data Hin. by repeat apply elem_of_cons in Hin as [? | Hin];
        [.. | apply elem_of_nil in Hin].
    + assert (∀ e, e ∈ (if (0 <? length pathnames)%nat
            then Log (lit "
📋 Preview of first 10 pathnames:")
                   :: preview 0 (take 10 pathnames)
                   ++ (if (10 <? length pathnames)%nat
                       then [Log (lit "  ... and "
                                    ++ ofNat (length pathnames - 10)
                                    ++ lit " more")]
                       else [])
            else []) ++ [Close] → e = Close ∨ ∃ line, e = Log line)
        as Htail.
      { intros e [He | ->%list_elem_of_singleton]%elem_of_app;
          [right | by left].
        destruct (0 <? _)%nat; [| by apply elem_of_nil in He].
        apply elem_of_cons in He as [-> | He]; [by eexists |].
        apply elem_of_app in He as [He | He]; [by eapply preview_logs |].
        destruct (10 <? _)%nat; [| by apply elem_of_nil in He].
        apply list_elem_of_singleton in He as ->. by eexists. }
      split_and!.
      * rewrite !last_cons, last_snoc. done.
      * done.
      * intros _. exists pathnames. eexists. split; [done |].
        split; [done |]. rewrite Ew. split.
        -- intros path data Hin.
           repeat apply elem_of_cons in Hin as [? | Hin]; try done.
           by apply Htail in Hin as [? | [? ?]].
        -- intros line Hin.
           repeat apply elem_of_cons in Hin as [? | Hin]; try done.
           by apply Htail in Hin as [? | [? ?]].
Qed.

End HarvesterExtras.

(** ** The sitemap harvester: its regular expressions *)

Section PatternExtras.
Context `{URLParser} `{Network} `{ExtractUrls.Codec}.
Import Regex ExtractUrls.
Implicit Types (s : jsstring).

Lemma mtch_Star_Chr ml p prev s caps k :
  mtch ml (Star (Chr p)) (MState prev s caps) k = starChr p k prev s caps.
Proof.
  cbn [mtch ms_rest].
  assert (length s < S (length s))%nat as Hn by lia.
  revert Hn. generalize (S (length s)) as n. intros n. revert prev s.
  induction n as [| n IH]; intros prev s Hn; [lia |].
  destruct s as [| c tl]; [done |].
  cbn [mtch ms_rest ms_caps starChr]. destruct (p c); [| done].
  cbn [ms_rest length].
  assert ((length tl <? S (length tl))%nat = true) as ->
    by (apply Nat.ltb_lt; lia).
  rewrite IH by (simpl in Hn; lia). done.
Qed.

(** What the star took is of the class, and the rest of the pattern
    matched after it; the captures are those before the star. *)
Lemma starChr_sound p k prev s caps z :
  starChr p k prev s caps = Some z →
  ∃ taken rest prev',
    s = taken ++ rest ∧ Forall (λ c, p c = true) taken
    ∧ k (MState prev' rest caps) = Some z.
Proof.
  revert prev. induction s as [| c tl IH]; intros prev; cbn [starChr].
  - intros Hk. by exists [], [], prev.
  - destruct (p c) eqn:Ep; [| intros Hk; by exists [], (c :: tl), prev].
    destruct (starChr p k (Some c) tl caps) as [z' |] eqn:Es.
    + intros [= <-].
      destruct (IH _ Es) as (taken & rest & prev' & -> & Ht & Hk).
      exists (c :: taken), rest, prev'. split_and!; [done | | done].
      by apply Forall_cons.
    + intros Hk. by exists [], (c :: tl), prev.
Qed.

Lemma star_slashes_sound prev s caps y :
  starChr (N.eqb 47) endOfInput prev s caps = Some y →
  ms_rest y = [] ∧ Forall (λ c, c = 47%N) s.
Proof.
  intros (taken & rest & prev' & -> & Ht & Hk)%starChr_sound.
  unfold endOfInput in Hk. cbn [mtch] in Hk. unfold atEol in Hk.
  cbn [ms_rest] in Hk. destruct rest as [| c rest]; [| done].
  injection Hk as <-. split; [done |]. rewrite app_nil_r.
  eapply Forall_impl; [exact Ht |]. by intros c ->%N.eqb_eq.
Qed.

Lemma star_slashes_complete prev s caps :
  Forall (λ c, c = 47%N) s →
  is_Some (starChr (N.eqb 47) endOfInput prev s caps).
Proof.
  revert prev. induction s as [| c tl IH]; intros prev Hs; cbn [starChr].
  - by eexists.
  - apply Forall_cons in Hs as [-> Hs]. rewrite N.eqb_refl.
    destruct (IH (Some 47%N) Hs) as [z ->]. by eexists.
Qed.

Lemma slashes_unfold prev s caps :
  mtch false re_trailingSlashes (MState prev s caps) Some
  = match s with
    | c :: tl =>
        if N.eqb 47 c then starChr (N.eqb 47) endOfInput (Some c) tl caps
        else None
    | [] => None
    end.
Proof.
  unfold re_trailingSlashes, Plus, chr. cbn [seqs].
  change (mtch false (Seq (Seq (Chr (N.eqb 47)) (Star (Chr (N.eqb 47)))) Eol)
            (MState prev s caps) Some)
    with (mtch false (Chr (N.eqb 47)) (MState prev s caps)
            (λ y, mtch false (Star (Chr (N.eqb 47))) y endOfInput)).
  cbn [mtch ms_rest ms_caps]. destruct s as [| c tl]; [done |].
  destruct (N.eqb 47 c); [| done]. apply (mtch_Star_Chr false).
Qed.

Lemma slashes_here prev s caps y :
  mtch false re_trailingSlashes (MState prev s caps) Some = Some y →
  ms_rest y = [] ∧ Forall (λ c, c = 47%N) s.
Proof.
  rewrite slashes_unfold. destruct s as [| c tl]; [done |].
  destruct (N.eqb 47 c) eqn:Ec; [| done]. apply N.eqb_eq in Ec as <-.
  intros [Hy Hall]%star_slashes_sound. split; [done | by apply Forall_cons].
Qed.

Lemma slashes_found prev c tl caps :
  Forall (λ c, c = 47%N) (c :: tl) →
  is_Some (mtch false re_trailingSlashes (MState prev (c :: tl) caps) Some).
Proof.
  intros [-> Hall]%Forall_cons. rewrite slashes_unfold, N.eqb_refl.
  by apply star_slashes_complete.
Qed.

Lemma Forall_replicate_eq (c : N) s :
  Forall (λ d, d = c) s → s = replicate (length s) c.
Proof. induction 1 as [| d tl -> _ IH]; simpl; [done | by f_equal]. Qed.

(** The pattern of [normalizeUrl] finds the run of slashes that ends the
    string, all of it, and nothing when the string does not end with a
    slash. *)
Lemma search_slashes prev s :
  match search false re_trailingSlashes prev s with
  | None => last s ≠ Some 47%N
  | Some (start, y) =>
      ms_rest y = [] ∧ (0 < start ≤ length s)%nat
      ∧ drop (length s - start) s = replicate start 47%N
      ∧ last (take (length s - start) s) ≠ Some 47%N
  end.
Proof.
  revert prev. induction s as [| c tl IH]; intros prev.
  - cbn [search]. by rewrite slashes_unfold.
  - cbn [search].
    destruct (mtch false re_trailingSlashes (MState prev (c :: tl) []) Some)
      as [y |] eqn:Em.
    + apply slashes_here in Em as [Hy Hall].
      rewrite Nat.sub_diag, drop_0, take_0.
      split_and!; [done | simpl; lia | simpl; lia | | done].
      by apply Forall_replicate_eq.
    + assert (¬ Forall (λ c, c = 47%N) (c :: tl)) as Hnot.
      { intros [z Hz]%(slashes_found prev _ _ []). by rewrite Hz in Em. }
      specialize (IH (Some c)).
      destruct (search false re_trailingSlashes (Some c) tl)
        as [[start y] |].
      * destruct IH as (Hy & Hs & Hd & Hl).
        replace (length (c :: tl) - start)%nat
          with (S (length tl - start)) by (simpl; lia).
        rewrite skipn_cons, firstn_cons.
        split_and!; [done | lia | simpl; lia | done |].
        destruct (length tl - start)%nat as [| n] eqn:En.
        -- rewrite take_0. simpl. intros [= ->]. apply Hnot.
           apply Forall_cons. split; [done |].
           rewrite drop_0 in Hd. rewrite Hd. by apply Forall_replicate.
        -- destruct tl as [| d tl']; [simpl in En; lia |].
           rewrite firstn_cons. rewrite last_cons_cons.
           by rewrite firstn_cons in Hl.
      * destruct tl as [| d tl'].
        -- simpl. intros [= ->]. apply Hnot. by repeat constructor.
        -- by rewrite last_cons_cons.
Qed.

(** X17: what [normalizeUrl] of the harvester accepts is the answer without
    the white space around it, with [https://] before it unless it starts
    with http:// or https:// in any case, and without the slashes at its
    end, all of them: the result does not end with a slash, so that the URLs
    made from it for robots.txt and the sitemaps have one slash there; and
    it is a URL that the parser accepts. *)
Theorem normalizeUrl_strips (url websiteUrl : jsstring) :
  normalizeUrl url = Some websiteUrl →
  url ≠ []
  ∧ is_Some (parseURL websiteUrl)
  ∧ last websiteUrl ≠ Some 47%N
  ∧ ∃ k, (if test false re_scheme (trim url) then trim url
          else lit "https://" ++ trim url)
         = websiteUrl ++ replicate k 47%N.
Proof.
  unfold normalizeUrl. destruct (bool_decide (url = [])) eqn:Ee; [done |].
  apply bool_decide_eq_false in Ee. cbv zeta.
  set (given := if negb (test false re_scheme (trim url))
                then lit "https://" ++ trim url else trim url).
  assert ((if test false re_scheme (trim url) then trim url
           else lit "https://" ++ trim url) = given) as ->.
  { unfold given. by destruct (test false re_scheme (trim url)). }
  destruct (parseURL _) as [urlObj |] eqn:Ep; [| done]. intros [= <-].
  split; [done |]. split; [by eexists |].
  unfold replaceFirst. pose proof (search_slashes None given) as Hs.
  destruct (search false re_trailingSlashes None given) as [[start y] |].
  - destruct Hs as (-> & Hlen & Hd & Hl). rewrite !app_nil_r.
    split; [done |]. exists start.
    rewrite <- Hd. by rewrite take_drop.
  - split; [done |]. exists 0%nat. by rewrite app_nil_r.
Qed.

Lemma search_Some ml r prev s start y :
  search ml r prev s = Some (start, y) →
  ∃ prev' s', mtch ml r (MState prev' s' []) Some = Some y.
Proof.
  revert prev. induction s as [| c tl IH]; intros prev; cbn [search].
  - destruct (mtch ml r _ _) as [z |] eqn:Em; [| done].
    intros [= _ <-]. by eexists _, _.
  - destruct (mtch ml r _ _) as [z |] eqn:Em; [| apply IH].
    intros [= _ <-]. by eexists _, _.
Qed.

Lemma matchAllFrom_caps fuel ml r prev s caps :
  caps ∈ matchAllFrom fuel ml r prev s →
  ∃ prev' s' y, mtch ml r (MState prev' s' []) Some = Some y
                ∧ caps = ms_caps y.
Proof.
  revert prev s. induction fuel as [| fuel IH]; intros prev s;
    cbn [matchAllFrom]; [by intros ?%elem_of_nil |].
  destruct (search ml r prev s) as [[start y] |] eqn:Es;
    [| by intros ?%elem_of_nil].
  intros [-> | Hin]%elem_of_cons.
  - apply search_Some in Es as (prev' & s' & Hm). by eexists _, _, _.
  - destruct (_ <? _)%nat; [by eapply IH |].
    destruct (ms_rest y); [by apply elem_of_nil in Hin | by eapply IH].
Qed.

(** The letters of a pattern capture nothing. *)
Lemma mtch_wordI ml w x k y :
  mtch ml (seqOf chrI w) x k = Some y →
  ∃ x', ms_caps x' = ms_caps x ∧ k x' = Some y.
Proof.
  revert x k. induction w as [| c w IH]; intros x k.
  - cbn [seqOf mtch]. intros Hk. by exists x.
  - destruct w as [| c' w].
    + cbn [seqOf]. unfold chrI.
      intros (d & tl & _ & _ & Hk)%mtch_Chr.
      by exists (MState (Some d) tl (ms_caps x)).
    + change (seqOf chrI (c :: c' :: w))
        with (Seq (chrI c) (seqOf chrI (c' :: w))).
      cbn [mtch]. unfold chrI at 1.
      intros (d & tl & _ & _ & (x' & Hc & Hk)%IH)%mtch_Chr. by exists x'.
Qed.

(** What [/<loc>([^<]+)<\/loc>/gi] captures: code units other than [<],
    one at least. *)
Lemma re_loc_capture prev s y :
  mtch false re_loc (MState prev s []) Some = Some y →
  capture 1 (ms_caps y) ≠ [] ∧ (60%N ∉ capture 1 (ms_caps y)).
Proof.
  unfold re_loc. cbn [seqs].
  change (mtch false
            (Seq (wordI "<loc>")
               (Seq (Group 1 (Plus (notChr 60))) (wordI "</loc>")))
            (MState prev s []) Some)
    with (mtch false (seqOf chrI (lit "<loc>")) (MState prev s [])
            (λ y1, mtch false (Chr (λ d, negb (N.eqb 60 d))) y1
               (λ y2, mtch false (Star (Chr (λ d, negb (N.eqb 60 d)))) y2
                  (λ y3, mtch false (seqOf chrI (lit "</loc>"))
                     (MState (ms_prev y3) (ms_rest y3)
                        ((1%nat,
                          take (length (ms_rest y1) - length (ms_rest y3))
                            (ms_rest y1)) :: ms_caps y3))
                     Some)))).
  intros (x1 & Hc1 & Hm)%mtch_wordI. cbn [ms_caps] in Hc1.
  apply mtch_Chr in Hm as (c & tl & Hrest & Hc & Hm).
  rewrite mtch_Star_Chr in Hm.
  apply starChr_sound in Hm as (taken & rest & prev' & -> & Ht & Hm).
  apply mtch_wordI in Hm as (x' & Hcaps & [= <-]).
  rewrite Hcaps, Hrest. cbn [ms_caps ms_rest capture Nat.eqb].
  replace (length (c :: taken ++ rest) - length rest)%nat
    with (S (length taken)) by (simpl; rewrite length_app; lia).
  rewrite firstn_cons, take_app_length. split; [done |].
  intros [<- | Hin]%elem_of_cons; [done |].
  rewrite Forall_forall in Ht. by apply Ht in Hin.
Qed.

Lemma elem_of_trimStart c s : c ∈ trimStart s → c ∈ s.
Proof.
  destruct (trimStart_suffix s) as [k Hk]. intros Hc. rewrite Hk.
  apply elem_of_app. by right.
Qed.

Lemma elem_of_trim c s : c ∈ trim s → c ∈ s.
Proof.
  unfold trim, trimEnd. intros Hc.
  apply list_elem_of_In, in_rev, list_elem_of_In, elem_of_trimStart in Hc.
  apply list_elem_of_In, in_rev, list_elem_of_In in Hc.
  by apply elem_of_trimStart.
Qed.

(** X18: what [extractLocs] reads between [<loc>] and [</loc>] never
    holds a [<], and has no white space at either end. *)
Theorem extractLocs_clean (xml : jsstring) :
  Forall (λ loc, (60%N ∉ loc)
                 ∧ (∀ c, head loc = Some c → isSpace c = false)
                 ∧ (∀ c, last loc = Some c → isSpace c = false))
    (extractLocs xml).
Proof.
  apply Forall_forall. intros loc. unfold extractLocs, matchAll.
  rewrite list_elem_of_In, in_map_iff.
  intros (caps & <- & Hin%list_elem_of_In%matchAllFrom_caps).
  destruct Hin as (prev & s & y & [_ Hfree]%re_loc_capture & ->).
  split_and!.
  - by intros ?%elem_of_trim.
  - apply trim_head.
  - apply trim_last.
Qed.

End PatternExtras.

(** ** More of the theorems at work on the small platform *)

Section CrawlExtraExamples.
Import CrawlUrls.
#[local] Existing Instance Demo.parser.
#[local] Existing Instance Demo.network.
#[local] Existing Instance Demo.oldestFirst.

(** The page [/about] is the second request, because the home page, the
    first one, links to it. *)
Lemma requests_traced_witness :
  let c := steps 40 Demo.base 50 2 (initial (lit "https://example.com")) in
  (1%nat = 0%nat → lit "https://example.com/about" = lit "https://example.com")
  ∧ (lit "https://example.com/about" = lit "https://example.com"
     ∨ (foundOn Demo.base 2 c.2 1 (lit "https://example.com/about")
        ∧ isSameDomain (lit "https://example.com/about") Demo.base = true
        ∧ isValidUrl (lit "https://example.com/about") = true)).
Proof.
  apply (requests_traced Demo.base 50 2 (lit "https://example.com") 40 1
           (lit "https://example.com/about")).
  vm_compute. reflexivity.
Defined.

(** A seed that the server does not have: one error, for the seed. *)
Lemma crawl_errors_witness :
  ∃ result,
    crawlWebsite 50 (lit "https://example.com/missing") 50 2 = Returns result
    ∧ (resultErrors result).*1 = [lit "https://example.com/missing"]
    ∧ NoDup (resultErrors result).*1
    ∧ Forall namesUrl (resultErrors result)
    ∧ Z.of_nat (length (resultErrors result)) ≤ resultPagesProcessed result.
Proof.
  eexists. split; [vm_compute; reflexivity |].
  split; [vm_compute; reflexivity |].
  apply (crawl_errors 50 (lit "https://example.com/missing") 50 2).
  vm_compute. reflexivity.
Defined.

(** The URLs of the small site, in order. *)
Lemma crawl_urls_sorted_witness :
  ∃ result,
    crawlWebsite 200 (lit "https://example.com") 50 2 = Returns result
    ∧ StronglySorted JS.lt (urls result)
    ∧ NoDup (urls result)
    ∧ totalDiscovered result = length (urls result).
Proof.
  eexists. split; [vm_compute; reflexivity |].
  apply (crawl_urls_sorted 200 (lit "https://example.com") 50 2).
  vm_compute. reflexivity.
Defined.


(** A seed that the server does not have: one page processed, one error. *)
Lemma seed_without_links_witness :
  let startUrl := lit "https://example.com/missing" in
  crawlWebsite (6 + 0) startUrl 50 2
  = Returns (MkResult []
               match fetchPage 0 startUrl with
               | inl message => [(startUrl, message)]
               | inr _ => []
               end 1 0).
Proof.
  eapply (seed_without_links 0 (lit "https://example.com/missing") _ 50 2).
  - vm_compute. reflexivity.
  - lia.
  - vm_compute. exact I.
Defined.

Lemma isValidPathname_stricter_witness :
  isValidUrl (lit "https://example.com/about/team") = true.
Proof.
  eapply (isValidPathname_stricter (lit "https://example.com/about/team")).
  - vm_compute. reflexivity.
  - vm_compute. reflexivity.
Defined.

(** The converter reads back the pathnames of two URLs of the site. *)
Lemma convert_reads_crawl_witness :
  ConvertPathnames.pathnames
    (ConvertPathnames.convertPathnamesToJson (H := Demo.path)
       (lit "example-pathnames.txt")
       (join (lit "
") (extractPathnames [lit "https://example.com/about?x=1";
                      lit "https://example.com/"] Demo.base))
       (lit "2025-01-01T00:00:00.000Z"))
  = extractPathnames [lit "https://example.com/about?x=1";
                      lit "https://example.com/"] Demo.base.
Proof.
  apply (convert_reads_crawl (H := Demo.path)
           [lit "https://example.com/about?x=1"; lit "https://example.com/"]
           Demo.base).
  assert (extractPathnames
            [lit "https://example.com/about?x=1"; lit "https://example.com/"]
            Demo.base = [lit "/"; lit "/about"]) as ->
    by (vm_compute; reflexivity).
  repeat (apply Forall_cons; split;
          [split;
           [apply (bool_decide_unpack _); vm_compute; exact I
           | intros c Hc; vm_compute in Hc; injection Hc as <-; reflexivity] |]).
  apply Forall_nil_2.
Defined.

End CrawlExtraExamples.

Section OfflineExample.
Import ExtractUrls.
#[local] Existing Instance Demo.parser.
#[local] Existing Instance Demo.network.
#[local] Existing Instance Demo.codec.
#[local] Existing Instance Demo.disk.

(** The small site of the crawler has no robots.txt and no sitemap. *)
Lemma no_sitemap_no_urls_witness :
  (∃ w, loop (3 + 0) (start (lit "https://example.com")) = Some w
        ∧ requests w
          = (λ path, lit "https://example.com" ++ path) <$> fallbackPaths
        ∧ urls w = [])
  ∧ collectAllUrls (3 + 0) (lit "https://example.com") = Some []
  ∧ (askWebsiteUrl [lit "example.com/"] = Some (lit "https://example.com") →
     main (3 + 0) [lit "example.com/"]
     = Some [Log noUrlsMessage; Close; Close]).
Proof.
  apply (no_sitemap_no_urls (lit "https://example.com") 0 [lit "example.com/"]).
  intros i path Hi.
  do 4 (destruct i as [| i];
        [vm_compute in Hi; injection Hi as <-; eexists; vm_compute;
         reflexivity |]).
  vm_compute in Hi. discriminate Hi.
Defined.

End OfflineExample.

Section HarvesterExamples.
Import ExtractUrls.
#[local] Existing Instance Demo.parser.
#[local] Existing Instance Demo.sitemaps.
#[local] Existing Instance Demo.codec.
#[local] Existing Instance Demo.disk.

(** The two pages come from pages.xml, the third request of the walk. *)
Lemma collectAllUrls_harvested_witness :
  let found := [lit "https://example.com/"; lit "https://example.com/about"] in
  ∃ w, loop 10 (start (lit "https://example.com")) = Some w
       ∧ found = sort (urls w)
       ∧ StronglySorted JS.lt found
       ∧ Forall (harvested w) found.
Proof.
  apply (collectAllUrls_harvested 10 (lit "https://example.com")).
  vm_compute. reflexivity.
Defined.

Lemma harvester_pathnames_witness :
  ∃ pathnames,
    extractPathnames
      [lit "https://example.com/b"; lit "https://other.com/x";
       lit "https://example.com/a?q=1"; lit "https://example.com/b"]
      (lit "https://example.com")
    = Some pathnames
    ∧ StronglySorted JS.lt pathnames
    ∧ ∀ p, p ∈ pathnames ↔
           ∃ url urlObj,
             url ∈ [lit "https://example.com/b"; lit "https://other.com/x";
                    lit "https://example.com/a?q=1";
                    lit "https://example.com/b"]
             ∧ parseURL url = Some urlObj
             ∧ host urlObj = host Demo.base
             ∧ p = (if bool_decide (pathname urlObj = []) then lit "/"
                    else pathname urlObj).
Proof.
  apply (harvester_pathnames _ (lit "https://example.com") Demo.base).
  vm_compute. reflexivity.
Defined.

Lemma harvester_main_witness :
  let found :=
    [lit "https://example.com/"; lit "https://example.com/about"] in
  ∃ effects,
    main 10 [lit ""; lit " example.com/ "] = Some effects
    ∧ last effects = Some Close
    ∧ (found = [] →
       (∀ path data, WriteFile path data ∉ effects)
       ∧ ∀ line, Error line ∉ effects)
    ∧ (found ≠ [] →
       ∃ pathnames rest,
         extractPathnames found (lit "https://example.com") = Some pathnames
         ∧ effects
           = WriteFile (lit "url.txt") (join (lit "
") pathnames) :: rest
         ∧ (∀ path data, WriteFile path data ∉ rest)
         ∧ match writeFile (lit "url.txt") (join (lit "
") pathnames) with
           | Some message =>
               rest = [Error (lit "❌ Error: " ++ message); Close]
           | None => ∀ line, Error line ∉ rest
           end).
Proof.
  apply (harvester_main 10 [lit ""; lit " example.com/ "]
           (lit "https://example.com")
           [lit "https://example.com/"; lit "https://example.com/about"]).
  - vm_compute. reflexivity.
  - vm_compute. reflexivity.
Defined.

Lemma normalizeUrl_strips_witness :
  (lit " example.com// " : jsstring) ≠ []
  ∧ is_Some (parseURL (lit "https://example.com"))
  ∧ last (lit "https://example.com") ≠ Some 47%N
  ∧ ∃ k, (if Regex.test false re_scheme (trim (lit " example.com// "))
          then trim (lit " example.com// ")
          else lit "https://" ++ trim (lit " example.com// "))
         = lit "https://example.com" ++ replicate k 47%N.
Proof.
  apply (normalizeUrl_strips (lit " example.com// ")
           (lit "https://example.com")).
  vm_compute. reflexivity.
Defined.

End HarvesterExamples.
